(** * Page tracker

    A shallow embedding of [web/src/page_tracker/app.py] (the Flask view
    [index] and the cached client accessor [redis]) together with the parts of its
    collaborators that the view observes: the exception hierarchy of the Redis
    client library, the environment, [functools.cache], and the routing and
    error handling that Flask applies around a view registered with
    [@app.get("/")].

    Python [str] values are represented by their UTF-8 encoding, which is what
    Flask puts on the wire for a text response. *)

From Stdlib Require Import ZArith List String Ascii Bool Lia.
From Stdlib Require Import DecimalString DecimalPos DecimalZ.
From stdpp Require Import base option list strings gmap.

Local Open Scope string_scope.
Local Open Scope Z_scope.

(** ** Python values and exceptions *)

(** The exception classes considered: some builtin ones and the hierarchy
    rooted at [redis.RedisError].  [BuiltinConnectionError] and
    [BuiltinTimeoutError] are the [OSError] subclasses that share their short
    name with the library's classes.  The framework's own HTTP exceptions and
    the exceptions outside [Exception] are left out. *)
Inductive exc_class : Type :=
| Exception
| ValueError
| StopIteration
| OSError
| BuiltinConnectionError
| BuiltinTimeoutError
| RedisError
| ConnectionError
| TimeoutError
| ResponseError
| DataError
| BusyLoadingError
| AuthenticationError.

#[global] Instance exc_class_eq_dec : EqDecision exc_class.
Proof. solve_decision. Defined.

(** The direct base class ([Exception] is the root of the modelled part). *)
Definition base (c : exc_class) : option exc_class :=
  match c with
  | Exception => None
  | ValueError | StopIteration | OSError | RedisError => Some Exception
  | BuiltinConnectionError | BuiltinTimeoutError => Some OSError
  | ConnectionError | TimeoutError | ResponseError | DataError => Some RedisError
  | BusyLoadingError | AuthenticationError => Some ConnectionError
  end.

Fixpoint issubclass_upto (depth : nat) (c d : exc_class) : bool :=
  if decide (c = d) then true
  else match depth with
       | O => false
       | S depth' =>
           match base c with
           | Some p => issubclass_upto depth' p d
           | None => false
           end
       end.

(** No class of the hierarchy is more than three steps below [Exception]. *)
Definition issubclass : exc_class -> exc_class -> bool := issubclass_upto 3.

(** An exception instance: its class and the message it was raised with. *)
Record exn : Type := Exn { exn_class : exc_class; exn_msg : string }.

Definition isinstance (e : exn) (c : exc_class) : bool :=
  issubclass (exn_class e) c.

(** What a store stub or the store may hand back from [incr]. *)
Inductive pyval : Type :=
| PyInt (n : Z)
| PyNone
| PyStr (s : string).

(** [str(n)] for an [int]: decimal digits, a leading minus sign for negatives. *)
Definition str_of_int (n : Z) : string := NilZero.string_of_int (Z.to_int n).

(** [format(v, "")], which is what a replacement field [{v}] of an f-string
    evaluates to. *)
Definition format_value (v : pyval) : string :=
  match v with
  | PyInt n => str_of_int n
  | PyNone => "None"
  | PyStr s => s
  end.

(** [needle in hay] on strings. *)
Fixpoint contains (needle hay : string) : bool :=
  String.prefix needle hay ||
  match hay with
  | EmptyString => false
  | String _ rest => contains needle rest
  end.

(** ** Unicode *)

Definition byte_of (n : N) : string := String (ascii_of_N n) EmptyString.

(** UTF-8 encoding of one code point. *)
Definition utf8 (cp : N) : string :=
  (if cp <? 0x80 then byte_of cp
   else if cp <? 0x800 then
     byte_of (0xC0 + cp / 0x40) +:+ byte_of (0x80 + cp mod 0x40)
   else if cp <? 0x10000 then
     byte_of (0xE0 + cp / 0x1000) +:+ byte_of (0x80 + (cp / 0x40) mod 0x40)
     +:+ byte_of (0x80 + cp mod 0x40)
   else
     byte_of (0xF0 + cp / 0x40000) +:+ byte_of (0x80 + (cp / 0x1000) mod 0x40)
     +:+ byte_of (0x80 + (cp / 0x40) mod 0x40) +:+ byte_of (0x80 + cp mod 0x40))%N.

(** The code point that [\N{PENSIVE FACE}] names. *)
Definition PENSIVE_FACE : N := 0x1F614.

(** The code point of the decoration that opens the success message. *)
Definition PARTY_POPPER : N := 0x1F389.

(** ** Results and the external world *)

Inductive outcome (A : Type) : Type :=
| Returned (a : A)
| Raised (e : exn).
Arguments Returned {A} a.
Arguments Raised {A} e.

(** A client object: [client_id] is the object's identity (two constructions
    never yield the same one), [client_url] the address it was built from. *)
Record Client : Type := { client_id : nat; client_url : string }.

#[global] Instance Client_eq_dec : EqDecision Client.
Proof. solve_decision. Defined.

(** The Redis client library over a store with states [S]: whether
    [Redis.from_url] rejects an address, and what [client.incr(key)] does. *)
Class RedisLib (S : Type) : Type := {
  from_url_check : string -> option exn;
  execute_incr : Client -> string -> S -> outcome pyval * S
}.

(** Interactions with the collaborators, in the order they happen. *)
Inductive event : Type :=
| EvGetenv (key : string)
| EvFromUrl (url : string) (result : outcome Client)
| EvIncr (c : Client) (key : string)
| EvLog (msg : string) (e : exn).

Record World (S : Type) : Type := {
  environ : gmap string string;
  cache : option Client;
  next_id : nat;
  server : S;
  trace : list event
}.
Arguments environ {S} _.
Arguments cache {S} _.
Arguments next_id {S} _.
Arguments server {S} _.
Arguments trace {S} _.

Definition set_environ {S} (env : gmap string string) (w : World S) : World S :=
  {| environ := env; cache := cache w; next_id := next_id w;
     server := server w; trace := trace w |}.

Definition set_cache {S} (c : option Client) (w : World S) : World S :=
  {| environ := environ w; cache := c; next_id := next_id w;
     server := server w; trace := trace w |}.

Definition set_next_id {S} (n : nat) (w : World S) : World S :=
  {| environ := environ w; cache := cache w; next_id := n;
     server := server w; trace := trace w |}.

Definition set_server {S} (s : S) (w : World S) : World S :=
  {| environ := environ w; cache := cache w; next_id := next_id w;
     server := s; trace := trace w |}.

Definition emit {S} (ev : event) (w : World S) : World S :=
  {| environ := environ w; cache := cache w; next_id := next_id w;
     server := server w; trace := trace w ++ [ev] |}.

(** A process that has just imported the module: nothing cached, nothing
    constructed, nothing observed yet. *)
Definition init_world {S} (env : gmap string string) (s : S) : World S :=
  {| environ := env; cache := None; next_id := O; server := s; trace := [] |}.

(** ** Computations: state passing with exceptions *)

Definition M (S A : Type) : Type := World S -> outcome A * World S.

Definition ret {S A} (a : A) : M S A := fun w => (Returned a, w).

Definition raise {S A} (e : exn) : M S A := fun w => (Raised e, w).

Definition bind {S A B} (m : M S A) (k : A -> M S B) : M S B :=
  fun w =>
    match m w with
    | (Returned a, w') => k a w'
    | (Raised e, w') => (Raised e, w')
    end.

Notation "'let!' x ':=' m 'in' k" := (bind m (fun x => k))
  (at level 10, x name, m at level 100, k at level 200).

(** [try: body / except cls: handler / else: orelse]: the handler runs when
    [body] raises an instance of [cls]; any other exception propagates; the
    [else] suite runs when [body] raises nothing. *)
Definition try_except_else {S A B} (body : M S A) (cls : exc_class)
    (handler : exn -> M S B) (orelse : A -> M S B) : M S B :=
  fun w =>
    match body w with
    | (Returned a, w') => orelse a w'
    | (Raised e, w') =>
        if isinstance e cls then handler e w' else (Raised e, w')
    end.

(** ** The application: [page_tracker/app.py] *)

Section App.
Context {S : Type} `{!RedisLib S}.

(** [os.getenv(key, default)] *)
Definition getenv (key dflt : string) : M S string :=
  fun w => (Returned (default dflt (environ w !! key)), emit (EvGetenv key) w).

(** [Redis.from_url(url)]: raises what the library raises for [url], or
    allocates a new client object.  No connection is opened here. *)
Definition from_url (url : string) : M S Client :=
  fun w =>
    match from_url_check url with
    | Some e => (Raised e, emit (EvFromUrl url (Raised e)) w)
    | None =>
        let c := {| client_id := next_id w; client_url := url |} in
        (Returned c,
         emit (EvFromUrl url (Returned c)) (set_next_id (Datatypes.S (next_id w)) w))
    end.

(** [client.incr(key)] *)
Definition incr (c : Client) (key : string) : M S pyval :=
  fun w =>
    let (r, s') := execute_incr c key (server w) in
    (r, emit (EvIncr c key) (set_server s' w)).

(** [app.logger.exception(msg)] inside an [except] suite handling [e]. *)
Definition logger_exception (msg : string) (e : exn) : M S unit :=
  fun w => (Returned tt, emit (EvLog msg e) w).

(** The body of the accessor:
    [Redis.from_url(os.getenv("REDIS_URL", "redis://localhost:6379"))]. *)
Definition redis_uncached : M S Client :=
  let! url := getenv "REDIS_URL" "redis://localhost:6379" in
  from_url url.

(** [@cache def redis()]: the accessor takes no argument, so the memo table has
    at most one entry; a call that raises stores nothing. *)
Definition redis : M S Client :=
  fun w =>
    match cache w with
    | Some c => (Returned c, w)
    | None =>
        match redis_uncached w with
        | (Returned c, w') => (Returned c, set_cache (Some c) w')
        | (Raised e, w') => (Raised e, w')
        end
    end.

(** What a view may return: a body alone, or a body with a status. *)
Inductive view_rv : Type :=
| RvStr (text : string)
| RvTuple (text : string) (code : Z).

(** The expression the [try] suite evaluates: [redis().incr("page_views")]. *)
Definition page_views_call : M S pyval :=
  let! client := redis in
  incr client "page_views".

(** [def index()] *)
Definition index : M S view_rv :=
  try_except_else page_views_call RedisError
    (fun e =>
       let! _ := logger_exception "Redis Error" e in
       ret (RvTuple ("Sorry, something went wrong " +:+ utf8 PENSIVE_FACE) 500))
    (fun page_views =>
       let message :=
         "🎉 This page has been viewed " +:+ format_value page_views +:+ " times! " in
       let message := message +:+ "Thanks for visiting!" in
       ret (RvStr message)).

(** ** The HTTP layer around the view *)

Inductive http_method : Type :=
| GET | HEAD | POST | PUT | DELETE | CONNECT | OPTIONS | TRACE | PATCH.

#[global] Instance http_method_eq_dec : EqDecision http_method.
Proof. solve_decision. Defined.

Definition method_name (m : http_method) : string :=
  match m with
  | GET => "GET" | HEAD => "HEAD" | POST => "POST" | PUT => "PUT"
  | DELETE => "DELETE" | CONNECT => "CONNECT" | OPTIONS => "OPTIONS"
  | TRACE => "TRACE" | PATCH => "PATCH"
  end.

Record Request : Type := {
  req_method : http_method;
  req_path : string;
  req_query : string;
  req_headers : list (string * string);
  req_body : string
}.

Record Response : Type := { status : Z; body : string }.

Definition nl : string := String (ascii_of_nat 10) EmptyString.

(** The page the framework renders for an HTTP error. *)
Definition error_page (code : Z) (name description : string) : Response :=
  {| status := code;
     body := "<!doctype html>" +:+ nl +:+ "<html lang=en>" +:+ nl
             +:+ "<title>" +:+ str_of_int code +:+ " " +:+ name +:+ "</title>" +:+ nl
             +:+ "<h1>" +:+ name +:+ "</h1>" +:+ nl
             +:+ "<p>" +:+ description +:+ "</p>" +:+ nl |}.

Definition not_found : Response :=
  error_page 404 "Not Found"
    ("The requested URL was not found on the server. If you entered the URL "
     +:+ "manually please check your spelling and try again.").

Definition method_not_allowed : Response :=
  error_page 405 "Method Not Allowed"
    "The method is not allowed for the requested URL.".

Definition internal_server_error : Response :=
  error_page 500 "Internal Server Error"
    ("The server encountered an internal error and was unable to complete your "
     +:+ "request. Either the server is overloaded or there is an error in the "
     +:+ "application.").

(** A view's return value becomes a response; a bare body has status 200. *)
Definition make_response (rv : view_rv) : Response :=
  match rv with
  | RvStr text => {| status := 200; body := text |}
  | RvTuple text code => {| status := code; body := text |}
  end.

(** [@app.get("/")] registers the view for [GET]. *)
Definition view_methods : list http_method := [GET].

(** The methods of the rule: a rule that accepts [GET] accepts [HEAD] too, and
    the framework answers [OPTIONS] itself for a view that does not list it. *)
Definition rule_methods : list http_method :=
  (if bool_decide (GET ∈ view_methods) then HEAD :: view_methods else view_methods)
  ++ (if bool_decide (OPTIONS ∈ view_methods) then [] else [OPTIONS]).

Definition provide_automatic_options : bool :=
  negb (bool_decide (OPTIONS ∈ view_methods)).

(** Routing and dispatch for the one rule of the application.  (Redirects for
    paths that only differ from [/] by repeated slashes are not modelled.) *)
Definition dispatch_request (req : Request) : M S Response :=
  if negb (String.eqb (req_path req) "/") then ret not_found
  else if negb (bool_decide (req_method req ∈ rule_methods)) then
    ret method_not_allowed
  else if provide_automatic_options && bool_decide (req_method req = OPTIONS) then
    ret {| status := 200; body := "" |}
  else
    let! rv := index in
    ret (make_response rv).

(** The body of a response to [HEAD] is not sent. *)
Definition finalize (req : Request) (r : Response) : Response :=
  if bool_decide (req_method req = HEAD) then {| status := status r; body := "" |}
  else r.

(** One request through the application, exceptions not propagated (the
    application runs with [debug] and [testing] off): an exception that leaves
    the view is logged and answered with the generic server-error page. *)
Definition wsgi_app (req : Request) (w : World S) : Response * World S :=
  match dispatch_request req w with
  | (Returned r, w') => (finalize req r, w')
  | (Raised e, w') =>
      (finalize req internal_server_error,
       emit (EvLog ("Exception on " +:+ req_path req +:+ " ["
                    +:+ method_name (req_method req) +:+ "]") e) w')
  end.

(** ** Runs of one process

    What can happen in a process after the module is imported: a call of the
    accessor, a request, an assignment [os.environ[key] = value] or a deletion
    [del os.environ[key]]. *)

Inductive action : Type :=
| CallRedis
| Serve (req : Request)
| SetEnviron (key value : string)
| DelEnviron (key : string).

Inductive observation : Type :=
| ObsClient (r : outcome Client)
| ObsResponse (r : Response)
| ObsNone.

Definition step (a : action) (w : World S) : observation * World S :=
  match a with
  | CallRedis => let (r, w') := redis w in (ObsClient r, w')
  | Serve req => let (r, w') := wsgi_app req w in (ObsResponse r, w')
  | SetEnviron key value => (ObsNone, set_environ (<[key := value]> (environ w)) w)
  | DelEnviron key => (ObsNone, set_environ (delete key (environ w)) w)
  end.

Fixpoint run (acts : list action) (w : World S) : list observation * World S :=
  match acts with
  | [] => ([], w)
  | a :: rest =>
      let (o, w') := step a w in
      let (os, w'') := run rest w' in
      (o :: os, w'')
  end.

End App.

(** ** The accessor step by step

    The wrapper that [@cache] puts around the accessor holds no lock while the
    wrapped function runs: it looks the entry up, on a miss evaluates the body
    (the environment read, then the constructor call), stores the result and
    returns it.  A call of the accessor is at one of these points. *)

Inductive call_state : Type :=
| AtLookup
| AtResolve
| AtConstruct (url : string)
| AtStore (c : Client)
| Finished (r : outcome Client).

Section Overlap.
Context {S : Type} `{!RedisLib S}.

(** One step of one call. *)
Definition call_step (st : call_state) (w : World S) : call_state * World S :=
  match st with
  | AtLookup =>
      match cache w with
      | Some c => (Finished (Returned c), w)
      | None => (AtResolve, w)
      end
  | AtResolve =>
      match getenv "REDIS_URL" "redis://localhost:6379" w with
      | (Returned url, w') => (AtConstruct url, w')
      | (Raised e, w') => (Finished (Raised e), w')
      end
  | AtConstruct url =>
      match from_url url w with
      | (Returned c, w') => (AtStore c, w')
      | (Raised e, w') => (Finished (Raised e), w')
      end
  | AtStore c => (Finished (Returned c), set_cache (Some c) w)
  | Finished r => (Finished r, w)
  end.

(** A call left to run alone for [n] steps. *)
Fixpoint call_steps (n : nat) (st : call_state) (w : World S)
    : call_state * World S :=
  match n with
  | O => (st, w)
  | Datatypes.S n' => let (st', w') := call_step st w in call_steps n' st' w'
  end.

(** Several calls in flight: the schedule names, step by step, the call that
    moves next. *)
Fixpoint run_schedule (schedule : list nat) (calls : list call_state) (w : World S)
    : list call_state * World S :=
  match schedule with
  | [] => (calls, w)
  | i :: rest =>
      match calls !! i with
      | Some st =>
          let (st', w') := call_step st w in
          run_schedule rest (<[i := st']> calls) w'
      | None => run_schedule rest calls w
      end
  end.

End Overlap.

(** Successful constructions of a client recorded in a trace. *)
Definition constructed (t : list event) : list Client :=
  omap (fun ev => match ev with
                  | EvFromUrl _ (Returned c) => Some c
                  | _ => None
                  end) t.

(** The keys [incr] was called with. *)
Definition incr_keys (t : list event) : list string :=
  omap (fun ev => match ev with EvIncr _ key => Some key | _ => None end) t.

(** The clients [incr] was called on. *)
Definition incr_clients (t : list event) : list Client :=
  omap (fun ev => match ev with EvIncr c _ => Some c | _ => None end) t.

(** The configuration part of a trace: environment reads and constructor calls. *)
Definition is_config (ev : event) : bool :=
  match ev with
  | EvGetenv _ | EvFromUrl _ _ => true
  | _ => false
  end.

Definition config_events (t : list event) : list event := List.filter is_config t.

(** The cache and the trace agree: the clients constructed so far are exactly
    the cached one, if any, and [incr] was only ever called on it. *)
Definition consistent {S} (w : World S) : Prop :=
  constructed (trace w) = option_list (cache w)
  /\ Forall (fun c => cache w = Some c) (incr_clients (trace w)).

(** The configuration events of a state with a cached client end with the
    read and the constructor call that produced that client, every constructor
    call before it having raised. *)
Definition resolved_last {S} (w : World S) : Prop :=
  forall c, cache w = Some c ->
    exists failed,
      config_events (trace w)
      = (failed ++ [EvGetenv "REDIS_URL";
                    EvFromUrl (client_url c) (Returned c)])%list
      /\ constructed failed = [].

(** The address the accessor resolves in an environment. *)
Definition resolve_url (env : gmap string string) : string :=
  default "redis://localhost:6379" (env !! "REDIS_URL").

(** A plain [GET /] and variations of it. *)
Definition get_root : Request :=
  {| req_method := GET; req_path := "/"; req_query := "";
     req_headers := []; req_body := "" |}.

Definition request_root (m : http_method) : Request :=
  {| req_method := m; req_path := "/"; req_query := "";
     req_headers := []; req_body := "" |}.

Definition get_root_decorated : Request :=
  {| req_method := GET; req_path := "/"; req_query := "param1=value1&param2=value2";
     req_headers := [("User-Agent", "TestAgent/1.0"); ("X-Custom-Header", "CustomValue")];
     req_body := "ignored" |}.

(** The two fixed texts of the application, as the bytes sent. *)
Definition success_body (shown : string) : string :=
  "🎉 This page has been viewed " +:+ shown +:+ " times! Thanks for visiting!".

Definition apology : string := "Sorry, something went wrong 😔".

(** What the view hands back is a function of the outcome of its [try] suite
    alone. *)
Definition view_outcome (r : outcome pyval) : outcome view_rv :=
  match r with
  | Returned v => Returned (RvStr (success_body (format_value v)))
  | Raised e =>
      if isinstance e RedisError then Returned (RvTuple apology 500) else Raised e
  end.

(** The response the framework sends for what the view hands back. *)
Definition response_of (r : outcome view_rv) : Response :=
  match r with
  | Returned rv => make_response rv
  | Raised _ => internal_server_error
  end.

(** The client a fresh process builds from an empty environment. *)
Definition default_client : Client :=
  {| client_id := 0; client_url := "redis://localhost:6379" |}.

(** ** A client library whose constructor fails

    [Redis.from_url] raises the library's [ConnectionError] for every address,
    so no client ever exists and [incr] cannot be reached. *)

Module NoClient.

Inductive state : Type := Nowhere.

#[global] Instance lib : RedisLib state := {
  from_url_check := fun _ => Some (Exn ConnectionError "Connection failed");
  execute_incr := fun _ _ s => (Raised (Exn ConnectionError "Connection failed"), s)
}.

End NoClient.

(** ** The first version of the application: [src/page_tracker/app.py]

    The accessor builds the client with [Redis()], that is for the library's
    default address (localhost, port 6379), without consulting the
    environment; the success text has no decoration. *)

Module Legacy.

Section Legacy.
Context {S : Type} `{!RedisLib S}.

(** [Redis()]: allocates a client for the default address; there is no
    address to reject. *)
Definition Redis : M S Client :=
  fun w =>
    let c := {| client_id := next_id w; client_url := "redis://localhost:6379" |} in
    (Returned c, set_next_id (Datatypes.S (next_id w)) w).

(** [@cache def redis(): return Redis()] *)
Definition redis : M S Client :=
  fun w =>
    match cache w with
    | Some c => (Returned c, w)
    | None =>
        match Redis w with
        | (Returned c, w') => (Returned c, set_cache (Some c) w')
        | (Raised e, w') => (Raised e, w')
        end
    end.

(** [def index()] *)
Definition index : M S view_rv :=
  try_except_else
    (let! client := redis in incr client "page_views")
    RedisError
    (fun e =>
       let! _ := logger_exception "Redis Error" e in
       ret (RvTuple ("Sorry, something went wrong " +:+ utf8 PENSIVE_FACE) 500))
    (fun page_views =>
       ret (RvStr ("This page has been viewed " +:+ format_value page_views
                   +:+ " times"))).

End Legacy.

End Legacy.

(** ** A store stub in the manner of [unittest.mock] *)

Module Mock.

Inductive side_effect_t : Type :=
| NoSideEffect
| AlwaysRaise (e : exn)
| Script (results : list (outcome pyval)).

Record state : Type := {
  return_value : pyval;
  side_effect : side_effect_t
}.

(** A call of the stubbed [incr]: a scripted side effect is consumed one entry
    per call and an exhausted script raises [StopIteration]; without a side
    effect the configured return value is handed back. *)
Definition call (s : state) : outcome pyval * state :=
  match side_effect s with
  | NoSideEffect => (Returned (return_value s), s)
  | AlwaysRaise e => (Raised e, s)
  | Script [] => (Raised (Exn StopIteration ""), s)
  | Script (r :: rest) =>
      (r, {| return_value := return_value s; side_effect := Script rest |})
  end.

#[global] Instance lib : RedisLib state := {
  from_url_check := fun _ => None;
  execute_incr := fun _ _ s => call s
}.

Definition returning (v : pyval) : state :=
  {| return_value := v; side_effect := NoSideEffect |}.

Definition raising (e : exn) : state :=
  {| return_value := PyNone; side_effect := AlwaysRaise e |}.

Definition scripted (results : list (outcome pyval)) : state :=
  {| return_value := PyNone; side_effect := Script results |}.

End Mock.

(** ** The store with its increment command *)

Module Store.

(** The keyspace holds integers; a server may be unreachable. *)
Record state : Type := {
  keyspace : gmap string Z;
  reachable : bool
}.

(** The schemes [Redis.from_url] accepts. *)
Definition scheme_ok (url : string) : bool :=
  String.prefix "redis://" url || String.prefix "rediss://" url
  || String.prefix "unix://" url.

(** The increment command: an absent key counts as 0, the stored value grows
    by exactly 1 and the new value is returned. *)
Definition execute (key : string) (s : state) : outcome pyval * state :=
  if reachable s then
    let n := default 0 (keyspace s !! key) + 1 in
    (Returned (PyInt n), {| keyspace := <[key := n]> (keyspace s); reachable := true |})
  else (Raised (Exn ConnectionError "Connection refused."), s).

#[global] Instance lib : RedisLib state := {
  from_url_check := fun url =>
    if scheme_ok url then None
    else Some (Exn ValueError
      "Redis URL must specify one of the following schemes (redis://, rediss://, unix://)");
  execute_incr := fun _ key s => execute key s
}.

Definition up (ks : gmap string Z) : state := {| keyspace := ks; reachable := true |}.

Definition down (ks : gmap string Z) : state := {| keyspace := ks; reachable := false |}.

End Store.

(** A fresh process in front of a reachable store with the given keyspace,
    and one whose environment names an address the library rejects. *)
Definition store_world (ks : gmap string Z) : World Store.state :=
  init_world ∅ (Store.up ks).

Definition misconfigured_world : World Store.state :=
  init_world {[ "REDIS_URL" := "invalid://url" ]} (Store.up ∅).

(** The response made of what a view hands back, when it hands back
    something. *)
Definition make_response_of (r : outcome view_rv) : option Response :=
  match r with
  | Returned rv => Some (make_response rv)
  | Raised _ => None
  end.

(** The records written to the application's log, oldest first. *)
Definition log_records (t : list event) : list (string * exn) :=
  omap (fun ev => match ev with EvLog msg e => Some (msg, e) | _ => None end) t.

(** * Properties *)

(** ** Strings *)

Lemma append_nil (b : string) : "" +:+ b = b.
Proof. reflexivity. Qed.

Lemma append_cons (x : ascii) (a b : string) :
  String x a +:+ b = String x (a +:+ b).
Proof. reflexivity. Qed.

Lemma append_assoc (a b c : string) : (a +:+ b) +:+ c = a +:+ (b +:+ c).
Proof.
  induction a as [|x a IH]; [reflexivity|].
  now rewrite !append_cons, IH.
Qed.

Lemma append_length (a b : string) :
  String.length (a +:+ b) = (String.length a + String.length b)%nat.
Proof.
  induction a as [|x a IH]; [reflexivity|].
  rewrite append_cons. simpl. now rewrite IH.
Qed.

Lemma append_inv_tail (a b c : string) : a +:+ c = b +:+ c -> a = b.
Proof.
  revert b. induction a as [|x a IH]; intros [|y b] E.
  - reflexivity.
  - apply (f_equal String.length) in E.
    rewrite append_nil, append_cons in E. simpl in E.
    rewrite append_length in E. lia.
  - apply (f_equal String.length) in E.
    rewrite append_nil, append_cons in E. simpl in E.
    rewrite append_length in E. lia.
  - rewrite !append_cons in E. injection E as -> E. f_equal. now apply IH.
Qed.

Lemma prefix_append (a b : string) : String.prefix a (a +:+ b) = true.
Proof.
  induction a as [|x a IH]; [now destruct b|].
  rewrite append_cons. simpl.
  destruct (ascii_dec x x); [exact IH | congruence].
Qed.

Lemma contains_here (a b : string) : contains a (a +:+ b) = true.
Proof.
  destruct a as [|x a]; [now destruct b|].
  rewrite append_cons. unfold contains; fold contains.
  rewrite <- append_cons. now rewrite prefix_append.
Qed.

Lemma contains_append (p a b : string) : contains a (p +:+ a +:+ b) = true.
Proof.
  induction p as [|x p IH].
  - rewrite append_nil. apply contains_here.
  - rewrite append_cons. unfold contains; fold contains.
    rewrite IH. apply orb_true_r.
Qed.

(** [str] on integers is injective: the text determines the number. *)
Lemma str_of_int_inj (m n : Z) : str_of_int m = str_of_int n -> m = n.
Proof.
  unfold str_of_int. intros E.
  assert (N : forall z, Z.to_int z <> Decimal.Pos Decimal.Nil
                        /\ Z.to_int z <> Decimal.Neg Decimal.Nil).
  { intros [|p|p]; simpl; split; try discriminate;
      intros H; injection H as H; revert H; apply Unsigned.to_uint_nonnil. }
  apply DecimalZ.to_int_inj.
  assert (Some (Z.to_int m) = Some (Z.to_int n)) as [= ->]; [|reflexivity].
  rewrite <- (NilZero.isi (Z.to_int m)), <- (NilZero.isi (Z.to_int n));
    try apply N. now rewrite E.
Qed.

Lemma success_body_inj (s t : string) : success_body s = success_body t -> s = t.
Proof.
  unfold success_body. intros E.
  apply String.app_inj in E. now apply append_inv_tail in E.
Qed.

(** The pictographs of the two texts are the UTF-8 encodings of the code
    points the source names. *)
Lemma apology_utf8 : apology = "Sorry, something went wrong " +:+ utf8 PENSIVE_FACE.
Proof. reflexivity. Qed.

Lemma success_body_utf8 (s : string) :
  success_body s =
  utf8 PARTY_POPPER +:+ " This page has been viewed " +:+ s
  +:+ " times! Thanks for visiting!".
Proof. reflexivity. Qed.

(** ** The exception filter of the view *)

Lemma isinstance_RedisError_true (e : exn) :
  exn_class e ∈ [RedisError; ConnectionError; TimeoutError; ResponseError;
                 DataError; BusyLoadingError; AuthenticationError] ->
  isinstance e RedisError = true.
Proof.
  intros H. unfold isinstance.
  repeat (apply elem_of_cons in H as [->|H]; [reflexivity|]).
  now apply elem_of_nil in H.
Qed.

Lemma isinstance_RedisError_false (e : exn) :
  exn_class e ∈ [Exception; ValueError; StopIteration; OSError;
                 BuiltinConnectionError; BuiltinTimeoutError] ->
  isinstance e RedisError = false.
Proof.
  intros H. unfold isinstance.
  repeat (apply elem_of_cons in H as [->|H]; [reflexivity|]).
  now apply elem_of_nil in H.
Qed.

Section AppFacts.
Context {S : Type} `{!RedisLib S}.
Implicit Types (w : World S) (c : Client) (req : Request).

(** ** The accessor and the store call *)

Lemma redis_cached w c : cache w = Some c -> redis w = (Returned c, w).
Proof. unfold redis. now intros ->. Qed.

Lemma redis_fresh w :
  cache w = None ->
  redis w =
  match from_url_check (resolve_url (environ w)) with
  | Some e =>
      (Raised e,
       emit (EvFromUrl (resolve_url (environ w)) (Raised e))
         (emit (EvGetenv "REDIS_URL") w))
  | None =>
      let c := {| client_id := next_id w; client_url := resolve_url (environ w) |} in
      (Returned c,
       set_cache (Some c)
         (emit (EvFromUrl (resolve_url (environ w)) (Returned c))
            (set_next_id (Datatypes.S (next_id w)) (emit (EvGetenv "REDIS_URL") w))))
  end.
Proof.
  intros E. unfold redis, redis_uncached, bind, getenv, from_url, resolve_url.
  rewrite E. simpl. now destruct (from_url_check _).
Qed.

Lemma page_views_call_eq w w1 c r s' :
  redis w = (Returned c, w1) ->
  execute_incr c "page_views" (server w1) = (r, s') ->
  page_views_call w = (r, emit (EvIncr c "page_views") (set_server s' w1)).
Proof.
  intros Hr Hi. unfold page_views_call, bind, incr. now rewrite Hr, Hi.
Qed.

(** ** The view, by the outcome of its [try] suite *)

Lemma index_else w w' v :
  page_views_call w = (Returned v, w') ->
  index w = (Returned (RvStr (success_body (format_value v))), w').
Proof.
  intros E. unfold index, try_except_else, ret. rewrite E.
  unfold success_body. now rewrite !append_assoc.
Qed.

Lemma index_except w w' e :
  page_views_call w = (Raised e, w') ->
  isinstance e RedisError = true ->
  index w = (Returned (RvTuple apology 500), emit (EvLog "Redis Error" e) w').
Proof.
  intros E I. unfold index, try_except_else. now rewrite E, I.
Qed.

Lemma index_propagates w w' e :
  page_views_call w = (Raised e, w') ->
  isinstance e RedisError = false ->
  index w = (Raised e, w').
Proof.
  intros E I. unfold index, try_except_else. now rewrite E, I.
Qed.

(** ** Dispatch *)

Lemma dispatch_get req w :
  req_method req = GET -> req_path req = "/" ->
  dispatch_request req w =
  match index w with
  | (Returned rv, w') => (Returned (make_response rv), w')
  | (Raised e, w') => (Raised e, w')
  end.
Proof.
  intros Hm Hp. unfold dispatch_request, bind, ret. rewrite Hm, Hp. simpl.
  now destruct (index w) as [[rv|e] w'].
Qed.

Lemma wsgi_app_get req w :
  req_method req = GET -> req_path req = "/" ->
  wsgi_app req w =
  match index w with
  | (Returned rv, w') => (make_response rv, w')
  | (Raised e, w') =>
      (internal_server_error, emit (EvLog "Exception on / [GET]" e) w')
  end.
Proof.
  intros Hm Hp. unfold wsgi_app. rewrite (dispatch_get _ _ Hm Hp).
  unfold finalize. rewrite Hm, Hp. now destruct (index w) as [[rv|e] w'].
Qed.

End AppFacts.

(** ** The response to [GET /], by the outcome of the store call *)

Section Responses.
Context {S : Type} `{!RedisLib S}.
Implicit Types (w : World S) (c : Client) (req : Request).

Lemma index_outcome w : fst (index w) = view_outcome (fst (page_views_call w)).
Proof.
  destruct (page_views_call w) as [[v|e] w'] eqn:E; simpl.
  - now rewrite (index_else _ _ _ E).
  - destruct (isinstance e RedisError) eqn:I.
    + now rewrite (index_except _ _ _ E I).
    + now rewrite (index_propagates _ _ _ E I).
Qed.

Lemma wsgi_app_get_response req w :
  req_method req = GET -> req_path req = "/" ->
  fst (wsgi_app req w) = response_of (view_outcome (fst (page_views_call w))).
Proof.
  intros Hm Hp. rewrite (wsgi_app_get _ _ Hm Hp), <- index_outcome.
  now destruct (index w) as [[rv|e] w'].
Qed.

Lemma get_response_returned req w w1 c v s' :
  req_method req = GET -> req_path req = "/" ->
  redis w = (Returned c, w1) ->
  execute_incr c "page_views" (server w1) = (Returned v, s') ->
  wsgi_app req w =
  ({| status := 200; body := success_body (format_value v) |},
   emit (EvIncr c "page_views") (set_server s' w1)).
Proof.
  intros Hm Hp Hr Hi. rewrite (wsgi_app_get _ _ Hm Hp).
  now rewrite (index_else _ _ _ (page_views_call_eq _ _ _ _ _ Hr Hi)).
Qed.

Lemma get_response_redis_error req w w1 c e s' :
  req_method req = GET -> req_path req = "/" ->
  redis w = (Returned c, w1) ->
  execute_incr c "page_views" (server w1) = (Raised e, s') ->
  isinstance e RedisError = true ->
  wsgi_app req w =
  ({| status := 500; body := apology |},
   emit (EvLog "Redis Error" e) (emit (EvIncr c "page_views") (set_server s' w1))).
Proof.
  intros Hm Hp Hr Hi I. rewrite (wsgi_app_get _ _ Hm Hp).
  now rewrite (index_except _ _ _ (page_views_call_eq _ _ _ _ _ Hr Hi) I).
Qed.

Lemma get_response_other_error req w w1 c e s' :
  req_method req = GET -> req_path req = "/" ->
  redis w = (Returned c, w1) ->
  execute_incr c "page_views" (server w1) = (Raised e, s') ->
  isinstance e RedisError = false ->
  wsgi_app req w =
  (internal_server_error,
   emit (EvLog "Exception on / [GET]" e)
     (emit (EvIncr c "page_views") (set_server s' w1))).
Proof.
  intros Hm Hp Hr Hi I. rewrite (wsgi_app_get _ _ Hm Hp).
  now rewrite (index_propagates _ _ _ (page_views_call_eq _ _ _ _ _ Hr Hi) I).
Qed.

End Responses.

(** C1: for a [GET /] whose store call returns the integer [n], the response
    has status 200 and its body is the success text around the decimal form of
    that very [n]: the body contains it, and no other integer yields the same
    body.  This holds in every state of the process, so nothing the handler
    could have tracked locally enters the body. *)
Theorem index_success_embeds_store_value {S : Type} `{!RedisLib S}
    (req : Request) (w w1 : World S) (c : Client) (n : Z) (s' : S) :
  req_method req = GET -> req_path req = "/" ->
  redis w = (Returned c, w1) ->
  execute_incr c "page_views" (server w1) = (Returned (PyInt n), s') ->
  fst (wsgi_app req w) = {| status := 200; body := success_body (str_of_int n) |}
  /\ contains (str_of_int n) (body (fst (wsgi_app req w))) = true
  /\ (forall m : Z, body (fst (wsgi_app req w)) = success_body (str_of_int m) -> m = n).
Proof.
  intros Hm Hp Hr Hi.
  rewrite (get_response_returned _ _ _ _ _ _ Hm Hp Hr Hi).
  cbn [fst body format_value].
  split; [reflexivity|]. split.
  - unfold success_body. apply contains_append.
  - intros m E. symmetry. now apply str_of_int_inj, success_body_inj.
Qed.

Lemma index_success_embeds_store_value_witness :
  fst (wsgi_app get_root (init_world ∅ (Mock.returning (PyInt 5))))
  = {| status := 200;
       body := "🎉 This page has been viewed 5 times! Thanks for visiting!" |}.
Proof.
  exact (proj1 (index_success_embeds_store_value get_root
    (init_world ∅ (Mock.returning (PyInt 5)))
    (snd (redis (init_world ∅ (Mock.returning (PyInt 5)))))
    default_client 5 (Mock.returning (PyInt 5))
    eq_refl eq_refl eq_refl eq_refl)).
Defined.

(** C2 (as amended): when the store call of a [GET /] raises an instance of
    [RedisError] (connection, timeout, response, busy-loading errors and the
    other subclasses), the response is status 500 with the fixed apology,
    whatever the message of the error; an exception of any other class is not
    caught by the view, and the framework answers it with status 500 and its
    own server-error page.  Neither body depends on the exception. *)
Theorem index_store_error_response {S : Type} `{!RedisLib S}
    (req : Request) (w w1 : World S) (c : Client) (e : exn) (s' : S) :
  req_method req = GET -> req_path req = "/" ->
  redis w = (Returned c, w1) ->
  execute_incr c "page_views" (server w1) = (Raised e, s') ->
  (exn_class e ∈ [RedisError; ConnectionError; TimeoutError; ResponseError;
                  DataError; BusyLoadingError; AuthenticationError] ->
   fst (wsgi_app req w) = {| status := 500; body := apology |})
  /\ (exn_class e ∈ [Exception; ValueError; StopIteration; OSError;
                     BuiltinConnectionError; BuiltinTimeoutError] ->
      fst (wsgi_app req w) = internal_server_error)
  /\ status (fst (wsgi_app req w)) = 500.
Proof.
  intros Hm Hp Hr Hi. split; [|split].
  - intros H. apply isinstance_RedisError_true in H.
    now rewrite (get_response_redis_error _ _ _ _ _ _ Hm Hp Hr Hi H).
  - intros H. apply isinstance_RedisError_false in H.
    now rewrite (get_response_other_error _ _ _ _ _ _ Hm Hp Hr Hi H).
  - destruct (isinstance e RedisError) eqn:I.
    + now rewrite (get_response_redis_error _ _ _ _ _ _ Hm Hp Hr Hi I).
    + now rewrite (get_response_other_error _ _ _ _ _ _ Hm Hp Hr Hi I).
Qed.

Lemma index_store_error_response_witness :
  fst (wsgi_app get_root
         (init_world ∅ (Mock.raising (Exn ResponseError "Invalid command"))))
  = {| status := 500; body := apology |}.
Proof.
  refine (proj1 (index_store_error_response get_root
    (init_world ∅ (Mock.raising (Exn ResponseError "Invalid command")))
    (snd (redis (init_world ∅ (Mock.raising (Exn ResponseError "Invalid command")))))
    default_client (Exn ResponseError "Invalid command")
    (Mock.raising (Exn ResponseError "Invalid command"))
    eq_refl eq_refl eq_refl eq_refl) _).
  simpl. repeat constructor.
Defined.

(** C2 fails as stated: a store client that raises a plain [Exception] during
    the increment call is not answered with the apology. *)
Lemma generic_exception_not_apologised :
  fst (page_views_call
         (init_world ∅ (Mock.raising (Exn Exception "Unexpected error"))))
  = Raised (Exn Exception "Unexpected error")
  /\ fst (wsgi_app get_root
            (init_world ∅ (Mock.raising (Exn Exception "Unexpected error"))))
     <> {| status := 500; body := apology |}.
Proof. split; [reflexivity | discriminate]. Qed.

(** C4 (as amended): whatever value the store call of a [GET /] returns
    without raising, the response is status 200 with that value formatted into
    the success text: [None] appears as the word None and a string as itself.
    A value that is not an integer is not turned into an error. *)
Theorem index_formats_any_returned_value {S : Type} `{!RedisLib S}
    (req : Request) (w w1 : World S) (c : Client) (v : pyval) (s' : S) :
  req_method req = GET -> req_path req = "/" ->
  redis w = (Returned c, w1) ->
  execute_incr c "page_views" (server w1) = (Returned v, s') ->
  fst (wsgi_app req w) = {| status := 200; body := success_body (format_value v) |}
  /\ (v = PyNone -> body (fst (wsgi_app req w)) = success_body "None")
  /\ (forall s, v = PyStr s -> body (fst (wsgi_app req w)) = success_body s)
  /\ trace (snd (wsgi_app req w)) = (trace w1 ++ [EvIncr c "page_views"])%list.
Proof.
  intros Hm Hp Hr Hi.
  rewrite (get_response_returned _ _ _ _ _ _ Hm Hp Hr Hi).
  cbn [fst snd body]. repeat split.
  - now intros ->.
  - now intros s ->.
Qed.

Lemma index_formats_any_returned_value_witness :
  fst (wsgi_app get_root (init_world ∅ (Mock.returning (PyStr "123"))))
  = {| status := 200;
       body := "🎉 This page has been viewed 123 times! Thanks for visiting!" |}.
Proof.
  exact (proj1 (index_formats_any_returned_value get_root
    (init_world ∅ (Mock.returning (PyStr "123")))
    (snd (redis (init_world ∅ (Mock.returning (PyStr "123")))))
    default_client (PyStr "123") (Mock.returning (PyStr "123"))
    eq_refl eq_refl eq_refl eq_refl)).
Defined.

(** C4 fails as stated: a store call that returns [None] is answered with
    status 200 and the success text, not with the apology. *)
Lemma none_return_is_formatted :
  fst (page_views_call (init_world ∅ (Mock.returning PyNone))) = Returned PyNone
  /\ fst (wsgi_app get_root (init_world ∅ (Mock.returning PyNone)))
     = {| status := 200;
          body := "🎉 This page has been viewed None times! Thanks for visiting!" |}
  /\ fst (wsgi_app get_root (init_world ∅ (Mock.returning PyNone)))
     <> {| status := 500; body := apology |}.
Proof. repeat split. discriminate. Qed.

(** ** Methods other than [GET] *)

Lemma wsgi_app_not_view {S : Type} `{!RedisLib S} (req : Request) (w : World S) :
  req_path req = "/" -> req_method req <> GET -> req_method req <> HEAD ->
  wsgi_app req w =
  (if bool_decide (req_method req = OPTIONS) then {| status := 200; body := "" |}
   else method_not_allowed, w).
Proof.
  intros Hp Hg Hh. unfold wsgi_app, dispatch_request, finalize, ret.
  rewrite Hp. destruct (req_method req); try congruence; reflexivity.
Qed.

(** C3 (as amended): a request to the root path whose method is neither [GET]
    nor [HEAD] leaves the whole state as it was, so the store's increment is
    not invoked; it is answered 405 unless the method is [OPTIONS], which the
    framework answers itself with status 200. *)
Theorem other_methods_do_not_reach_store {S : Type} `{!RedisLib S}
    (req : Request) (w : World S) :
  req_path req = "/" -> req_method req <> GET -> req_method req <> HEAD ->
  snd (wsgi_app req w) = w
  /\ (req_method req <> OPTIONS ->
      fst (wsgi_app req w) = method_not_allowed
      /\ status (fst (wsgi_app req w)) = 405)
  /\ (req_method req = OPTIONS -> status (fst (wsgi_app req w)) = 200).
Proof.
  intros Hp Hg Hh. rewrite (wsgi_app_not_view _ _ Hp Hg Hh). cbn [fst snd].
  split; [reflexivity|]. split.
  - intros Ho. now rewrite bool_decide_eq_false_2.
  - intros Ho. now rewrite bool_decide_eq_true_2.
Qed.

Lemma other_methods_do_not_reach_store_witness :
  snd (wsgi_app (request_root POST) (store_world ∅)) = store_world ∅
  /\ status (fst (wsgi_app (request_root POST) (store_world ∅))) = 405.
Proof.
  destruct (other_methods_do_not_reach_store (request_root POST) (store_world ∅)
              eq_refl ltac:(discriminate) ltac:(discriminate)) as (Hw & H405 & _).
  split; [exact Hw|]. apply H405. discriminate.
Defined.

(** C3 fails as stated: [HEAD /] is not answered 405, it runs the view and
    the store is incremented; [OPTIONS /] is not answered 405 either. *)
Lemma head_request_increments :
  status (fst (wsgi_app (request_root HEAD) (store_world ∅))) = 200
  /\ incr_keys (trace (snd (wsgi_app (request_root HEAD) (store_world ∅))))
     = ["page_views"]
  /\ Store.keyspace (server (snd (wsgi_app (request_root HEAD) (store_world ∅))))
       !! "page_views" = Some 1
  /\ status (fst (wsgi_app (request_root OPTIONS) (store_world ∅))) = 200.
Proof. repeat split; vm_compute; reflexivity. Qed.

(** C8: two [GET /] requests, whatever their query strings, headers and
    bodies, get the same response when the store call has the same outcome;
    served in the same state they also leave the same state behind. *)
Theorem request_parameters_ignored {S : Type} `{!RedisLib S}
    (r1 r2 : Request) (w1 w2 : World S) :
  req_method r1 = GET -> req_path r1 = "/" ->
  req_method r2 = GET -> req_path r2 = "/" ->
  fst (page_views_call w1) = fst (page_views_call w2) ->
  fst (wsgi_app r1 w1) = fst (wsgi_app r2 w2)
  /\ wsgi_app r1 w1 = wsgi_app r2 w1.
Proof.
  intros Hm1 Hp1 Hm2 Hp2 E. split.
  - rewrite (wsgi_app_get_response _ _ Hm1 Hp1), (wsgi_app_get_response _ _ Hm2 Hp2).
    now rewrite E.
  - now rewrite (wsgi_app_get _ _ Hm1 Hp1), (wsgi_app_get _ _ Hm2 Hp2).
Qed.

Lemma request_parameters_ignored_witness :
  fst (wsgi_app get_root (store_world ∅))
  = fst (wsgi_app get_root_decorated (store_world ∅)).
Proof.
  exact (proj1 (request_parameters_ignored get_root get_root_decorated
    (store_world ∅) (store_world ∅) eq_refl eq_refl eq_refl eq_refl eq_refl)).
Defined.

(** C10: the two texts are constants of the program.  When the store call
    returns the integer [n] the view hands back exactly the success text: the
    party-popper character, the words around the decimal form of [n]; when it
    raises a [RedisError] the view hands back, with status 500, exactly the
    words of the apology followed by the pensive-face character U+1F614. *)
Theorem index_texts_exact {S : Type} `{!RedisLib S}
    (w w1 : World S) (c : Client) (r : outcome pyval) (s' : S) :
  redis w = (Returned c, w1) ->
  execute_incr c "page_views" (server w1) = (r, s') ->
  (forall n : Z, r = Returned (PyInt n) ->
     fst (index w) =
     Returned (RvStr (utf8 0x1F389 +:+ " This page has been viewed "
                      +:+ str_of_int n +:+ " times! Thanks for visiting!")))
  /\ (forall e : exn, r = Raised e -> isinstance e RedisError = true ->
        fst (index w) =
        Returned (RvTuple ("Sorry, something went wrong " +:+ utf8 0x1F614) 500))
  /\ utf8 0x1F389 = "🎉" /\ utf8 0x1F614 = "😔".
Proof.
  intros Hr Hi. pose proof (page_views_call_eq _ _ _ _ _ Hr Hi) as E.
  split; [|split; [|split; reflexivity]].
  - intros n ->. now rewrite (index_else _ _ _ E).
  - intros e -> I. now rewrite (index_except _ _ _ E I).
Qed.

Lemma index_texts_exact_witness :
  fst (index (store_world {[ "page_views" := 41 ]}))
  = Returned (RvStr "🎉 This page has been viewed 42 times! Thanks for visiting!")
  /\ fst (index (init_world ∅ (Store.down ∅)))
     = Returned (RvTuple "Sorry, something went wrong 😔" 500).
Proof.
  split.
  - exact (proj1 (index_texts_exact (store_world {[ "page_views" := 41 ]})
      (snd (redis (store_world {[ "page_views" := 41 ]}))) default_client
      (Returned (PyInt 42)) (Store.up (<[ "page_views" := 42 ]> {[ "page_views" := 41 ]}))
      eq_refl eq_refl) 42 eq_refl).
  - exact (proj1 (proj2 (index_texts_exact (init_world ∅ (Store.down ∅))
      (snd (redis (init_world ∅ (Store.down ∅)))) default_client
      (Raised (Exn ConnectionError "Connection refused.")) (Store.down ∅)
      eq_refl eq_refl)) (Exn ConnectionError "Connection refused.") eq_refl eq_refl).
Defined.

(** ** What one step of a process does to the cache and the trace *)

Section Runs.
Context {S : Type} `{!RedisLib S}.
Implicit Types (w : World S) (c : Client) (req : Request).

Lemma redis_effect w :
  match cache w with
  | Some c => redis w = (Returned c, w)
  | None =>
      exists r w1,
        redis w = (r, w1)
        /\ trace w1
           = (trace w ++ [EvGetenv "REDIS_URL";
                          EvFromUrl (resolve_url (environ w)) r])%list
        /\ server w1 = server w
        /\ match r with
           | Returned c =>
               c = {| client_id := next_id w;
                      client_url := resolve_url (environ w) |}
               /\ cache w1 = Some c
           | Raised _ => cache w1 = None
           end
  end.
Proof.
  destruct (cache w) as [c|] eqn:E.
  - now apply redis_cached.
  - rewrite (redis_fresh _ E). destruct (from_url_check _) as [e|]; simpl.
    + eexists _, _. split; [reflexivity|]. simpl.
      rewrite <- app_assoc. auto.
    + eexists _, _. split; [reflexivity|]. simpl.
      rewrite <- app_assoc. auto.
Qed.

(** Serving a request either leaves the state alone, or calls the accessor and
    then adds events that are neither environment reads nor constructions and
    in which [incr] is only ever called on the client the accessor returned. *)
Lemma wsgi_app_effect req w :
  snd (wsgi_app req w) = w
  \/ exists r w1 extra,
       redis w = (r, w1)
       /\ cache (snd (wsgi_app req w)) = cache w1
       /\ trace (snd (wsgi_app req w)) = (trace w1 ++ extra)%list
       /\ config_events extra = []
       /\ constructed extra = []
       /\ Forall (fun c => r = Returned c) (incr_clients extra).
Proof.
  unfold wsgi_app, dispatch_request.
  destruct (negb (String.eqb (req_path req) "/")); [now left|].
  destruct (req_method req); simpl; try (now left); right;
    unfold bind, index, try_except_else, page_views_call, bind, incr, ret,
      logger_exception;
    destruct (redis w) as [[c|e] w1]; simpl;
    try destruct (execute_incr c "page_views" (server w1)) as [[v|e] s'];
    simpl; try destruct (isinstance e RedisError); simpl;
    eexists _, _, _; (split; [reflexivity|]); simpl;
    rewrite <- ?app_assoc; simpl;
    (split; [reflexivity|]); (split; [reflexivity|]);
    repeat split; repeat constructor.
Qed.

Lemma constructed_app (t1 t2 : list event) :
  constructed (t1 ++ t2) = (constructed t1 ++ constructed t2)%list.
Proof. apply omap_app. Qed.

Lemma incr_clients_app (t1 t2 : list event) :
  incr_clients (t1 ++ t2) = (incr_clients t1 ++ incr_clients t2)%list.
Proof. apply omap_app. Qed.

Lemma incr_keys_app (t1 t2 : list event) :
  incr_keys (t1 ++ t2) = (incr_keys t1 ++ incr_keys t2)%list.
Proof. apply omap_app. Qed.

Lemma config_events_app (t1 t2 : list event) :
  config_events (t1 ++ t2) = (config_events t1 ++ config_events t2)%list.
Proof. apply List.filter_app. Qed.

Lemma init_world_consistent env (s : S) : consistent (init_world env s).
Proof. split; [reflexivity | constructor]. Qed.

Lemma redis_consistent w r w1 :
  consistent w -> redis w = (r, w1) ->
  consistent w1
  /\ (forall c, r = Returned c -> cache w1 = Some c)
  /\ (forall c, cache w = Some c ->
        w1 = w /\ r = Returned c).
Proof.
  intros [Hc Hi] Hr. pose proof (redis_effect w) as E.
  destruct (cache w) as [c|] eqn:Ec.
  - rewrite E in Hr. injection Hr as <- <-.
    split; [split; now rewrite ?Ec|]. split.
    + now intros c' [= <-].
    + now intros c' [= <-].
  - destruct E as (r' & w1' & E & Ht & _ & Hk). rewrite E in Hr.
    injection Hr as <- <-.
    assert (incr_clients (trace w) = []) as Hn.
    { destruct (incr_clients (trace w)) as [|c' l]; [reflexivity|].
      now inversion Hi. }
    split; [|split; [|discriminate]].
    + split.
      * rewrite Ht, constructed_app, Hc. simpl.
        destruct r' as [c|e]; [destruct Hk as [_ ->] | rewrite Hk]; reflexivity.
      * rewrite Ht, incr_clients_app, Hn. simpl. constructor.
    + intros c ->. apply Hk.
Qed.

Lemma step_consistent (a : action) w : consistent w -> consistent (snd (step a w)).
Proof.
  intros Hw. destruct a as [|req|key value|key]; simpl; try exact Hw.
  - destruct (redis w) as [r w1] eqn:Hr. simpl.
    now apply (redis_consistent _ _ _ Hw Hr).
  - destruct (wsgi_app req w) as [resp w'] eqn:Ha. simpl.
    destruct (wsgi_app_effect req w) as [E|(r & w1 & extra & Hr & Hc & Ht & _ & Hn & Hf)];
      rewrite Ha in *; simpl in *; [now subst|].
    destruct (redis_consistent _ _ _ Hw Hr) as ([Hc1 Hi1] & Hret & _).
    split.
    + now rewrite Ht, constructed_app, Hn, app_nil_r, Hc.
    + rewrite Ht, incr_clients_app, Hc. apply Forall_app. split; [exact Hi1|].
      eapply Forall_impl; [exact Hf|]. intros c Hrc. now apply Hret.
Qed.

(** Once a client is cached it stays cached, and nothing reads the
    environment or calls the constructor any more. *)
Lemma step_cached (a : action) w c :
  consistent w -> cache w = Some c ->
  cache (snd (step a w)) = Some c
  /\ config_events (trace (snd (step a w))) = config_events (trace w)
  /\ (forall r, fst (step a w) = ObsClient r -> r = Returned c).
Proof.
  intros Hw Hc. destruct a as [|req|key value|key]; simpl; try (now auto).
  - destruct (redis w) as [r w1] eqn:Hr. simpl.
    destruct (redis_consistent _ _ _ Hw Hr) as (_ & _ & H).
    destruct (H _ Hc) as [-> ->]. repeat split; auto. now intros r [= <-].
  - destruct (wsgi_app req w) as [resp w'] eqn:Ha. simpl.
    destruct (wsgi_app_effect req w) as [E|(r & w1 & extra & Hr & Hc' & Ht & Hcf & _)];
      rewrite Ha in *; simpl in *; [subst; repeat split; auto; discriminate|].
    destruct (redis_consistent _ _ _ Hw Hr) as (_ & _ & H).
    destruct (H _ Hc) as [-> ->].
    repeat split; [congruence | | discriminate].
    now rewrite Ht, config_events_app, Hcf, app_nil_r.
Qed.

Lemma step_observed (a : action) w c :
  consistent w -> fst (step a w) = ObsClient (Returned c) ->
  cache (snd (step a w)) = Some c.
Proof.
  intros Hw. destruct a as [|req|key value|key]; simpl; try discriminate.
  - destruct (redis w) as [r w1] eqn:Hr. simpl. intros [= ->].
    now apply (redis_consistent _ _ _ Hw Hr).
  - destruct (wsgi_app req w). discriminate.
Qed.

Lemma run_cons (a : action) (acts : list action) w :
  run (a :: acts) w =
  (fst (step a w) :: fst (run acts (snd (step a w))),
   snd (run acts (snd (step a w)))).
Proof.
  simpl. destruct (step a w) as [o w']. simpl. now destruct (run acts w').
Qed.

Lemma run_consistent (acts : list action) w :
  consistent w -> consistent (snd (run acts w)).
Proof.
  revert w. induction acts as [|a acts IH]; intros w Hw; [exact Hw|].
  rewrite run_cons. simpl. apply IH. now apply step_consistent.
Qed.

Lemma run_cached (acts : list action) w c :
  consistent w -> cache w = Some c ->
  cache (snd (run acts w)) = Some c
  /\ config_events (trace (snd (run acts w))) = config_events (trace w)
  /\ (forall r, ObsClient r ∈ fst (run acts w) -> r = Returned c).
Proof.
  revert w. induction acts as [|a acts IH]; intros w Hw Hc.
  - repeat split; auto. simpl. intros r H. now apply elem_of_nil in H.
  - rewrite run_cons. simpl.
    destruct (step_cached a _ _ Hw Hc) as (Hc' & Ht & Ho).
    destruct (IH _ (step_consistent a _ Hw) Hc') as (Hc'' & Ht' & Ho').
    repeat split; [exact Hc'' | congruence |].
    intros r H. apply elem_of_cons in H as [H|H]; [|now apply Ho'].
    apply Ho. now symmetry.
Qed.

Lemma run_observed (acts : list action) w c :
  consistent w -> ObsClient (Returned c) ∈ fst (run acts w) ->
  cache (snd (run acts w)) = Some c.
Proof.
  revert w. induction acts as [|a acts IH]; intros w Hw H.
  - simpl in H. now apply elem_of_nil in H.
  - rewrite run_cons in *. simpl in *.
    apply elem_of_cons in H as [H|H].
    + symmetry in H. apply (step_observed _ _ _ Hw) in H.
      now apply run_cached; [apply step_consistent|].
    + now apply IH; [apply step_consistent|].
Qed.

End Runs.

(** ** The client accessor over a whole run *)

(** A call of the accessor that nothing interrupts is the accessor as [run]
    calls it. *)
Lemma call_alone_is_redis {S : Type} `{!RedisLib S} (w : World S) :
  call_steps 4 AtLookup w = (Finished (fst (redis w)), snd (redis w)).
Proof.
  unfold redis, redis_uncached, bind, getenv. simpl.
  destruct (cache w) as [c|]; [reflexivity|]. simpl.
  unfold from_url. now destruct (from_url_check _).
Qed.

Lemma constructed_config (t : list event) :
  constructed (config_events t) = constructed t.
Proof.
  induction t as [|ev t IH]; [reflexivity|].
  destruct ev as [key|url [c|e]|c key|msg e]; simpl; now rewrite ?IH.
Qed.

Section ResolvedLast.
Context {S : Type} `{!RedisLib S}.
Implicit Types (w : World S) (c : Client).

Lemma init_world_resolved_last env (s : S) : resolved_last (init_world env s).
Proof. intros c Hc. discriminate. Qed.

Lemma redis_resolved_last w r w1 :
  consistent w -> resolved_last w -> redis w = (r, w1) -> resolved_last w1.
Proof.
  intros [Hc _] Hl Hr. pose proof (redis_effect w) as E.
  destruct (cache w) as [c|] eqn:Ec.
  - rewrite E in Hr. now injection Hr as <- <-.
  - destruct E as (r' & w1' & E & Ht & _ & Hk). rewrite E in Hr.
    injection Hr as <- <-. intros c Hc1.
    destruct r' as [c'|e]; [|congruence].
    destruct Hk as [Hc' Hk]. rewrite Hk in Hc1. injection Hc1 as <-.
    exists (config_events (trace w)). split.
    + rewrite Ht, config_events_app. simpl. now rewrite Hc'.
    + now rewrite constructed_config, Hc.
Qed.

Lemma step_resolved_last (a : action) w :
  consistent w -> resolved_last w -> resolved_last (snd (step a w)).
Proof.
  intros Hw Hl. destruct a as [|req|key value|key]; simpl; try exact Hl.
  - destruct (redis w) as [r w1] eqn:Hr. simpl.
    now apply (redis_resolved_last _ _ _ Hw Hl Hr).
  - destruct (wsgi_app req w) as [resp w'] eqn:Ha. simpl.
    destruct (wsgi_app_effect req w) as [E|(r & w1 & extra & Hr & Hc & Ht & Hcf & _)];
      rewrite Ha in *; simpl in *; [now subst|].
    pose proof (redis_resolved_last _ _ _ Hw Hl Hr) as Hl1.
    intros c Hc'. rewrite Hc in Hc'. destruct (Hl1 c Hc') as (failed & Hf & Hn).
    exists failed. split; [|exact Hn].
    now rewrite Ht, config_events_app, Hcf, app_nil_r.
Qed.

Lemma run_resolved_last (acts : list action) w :
  consistent w -> resolved_last w -> resolved_last (snd (run acts w)).
Proof.
  revert w. induction acts as [|a acts IH]; intros w Hw Hl; [exact Hl|].
  rewrite run_cons. simpl. apply IH.
  - now apply step_consistent.
  - now apply step_resolved_last.
Qed.

End ResolvedLast.

(** C6 (as amended): in any run of a process from its start in which the
    accessor calls and the requests do not overlap (accessor calls, requests
    and changes of the environment one after the other, in any order), at most
    one client is ever constructed, every accessor call that returns hands back
    that one client, and every increment is sent through it.  Each step of such
    a run is a call of the accessor that nothing interrupts, and a call that
    finds a stored client returns it without constructing.  (The cache takes
    no lock: calls that overlap are outside this statement.) *)
Theorem client_constructed_once {S : Type} `{!RedisLib S}
    (env : gmap string string) (srv : S) (acts : list action) :
  (length (constructed (trace (snd (run acts (init_world env srv))))) <= 1)%nat
  /\ (forall c, ObsClient (Returned c) ∈ fst (run acts (init_world env srv)) ->
        constructed (trace (snd (run acts (init_world env srv)))) = [c])
  /\ (forall c1 c2,
        ObsClient (Returned c1) ∈ fst (run acts (init_world env srv)) ->
        ObsClient (Returned c2) ∈ fst (run acts (init_world env srv)) ->
        c1 = c2)
  /\ Forall (fun c => constructed (trace (snd (run acts (init_world env srv)))) = [c])
       (incr_clients (trace (snd (run acts (init_world env srv)))))
  /\ (forall w : World S,
        call_steps 4 AtLookup w = (Finished (fst (redis w)), snd (redis w)))
  /\ (forall (w : World S) c,
        cache w = Some c -> call_step AtLookup w = (Finished (Returned c), w)).
Proof.
  pose proof (init_world_consistent env srv) as H0.
  pose proof (run_consistent acts _ H0) as [Hc Hi].
  assert (Hobs : forall c,
             ObsClient (Returned c) ∈ fst (run acts (init_world env srv)) ->
             constructed (trace (snd (run acts (init_world env srv)))) = [c]).
  { intros c H. rewrite Hc. now rewrite (run_observed _ _ _ H0 H). }
  split; [|split; [exact Hobs|split; [|split; [|split]]]].
  - rewrite Hc. destruct (cache _); simpl; lia.
  - intros c1 c2 H1 H2. apply Hobs in H1. apply Hobs in H2. congruence.
  - eapply Forall_impl; [exact Hi|]. intros c E. rewrite Hc. now rewrite E.
  - apply call_alone_is_redis.
  - intros w c E. simpl. now rewrite E.
Qed.

Lemma client_constructed_once_witness :
  constructed (trace (snd (run [CallRedis; Serve get_root; CallRedis] (store_world ∅))))
  = [default_client].
Proof.
  apply (proj1 (proj2 (client_constructed_once ∅ (Store.up ∅)
                         [CallRedis; Serve get_root; CallRedis]))).
  vm_compute. apply list_elem_of_here.
Defined.

(** C6 fails as stated: two calls of the accessor that overlap (both look the
    entry up before either has stored its result) each construct a client, and
    they return different handles. *)
Lemma overlapping_calls_construct_twice :
  fst (run_schedule [0; 1; 0; 1; 0; 1; 0; 1]%nat [AtLookup; AtLookup] (store_world ∅))
  = [Finished (Returned {| client_id := 0; client_url := "redis://localhost:6379" |});
     Finished (Returned {| client_id := 1; client_url := "redis://localhost:6379" |})]
  /\ constructed (trace (snd (run_schedule [0; 1; 0; 1; 0; 1; 0; 1]%nat
                                [AtLookup; AtLookup] (store_world ∅))))
     = [{| client_id := 0; client_url := "redis://localhost:6379" |};
        {| client_id := 1; client_url := "redis://localhost:6379" |}]
  /\ {| client_id := 0; client_url := "redis://localhost:6379" |}
     <> {| client_id := 1; client_url := "redis://localhost:6379" |}.
Proof. repeat split; try (vm_compute; reflexivity). discriminate. Qed.

(** C7 (as amended): the address is resolved when the client is constructed,
    not when an increment is sent.  An accessor call that finds nothing cached
    reads [REDIS_URL] once and passes its value, or [redis://localhost:6379]
    when it is unset, to the constructor once; the client keeps that address.
    In a process whose first action calls the accessor (directly or by serving
    [GET /]) and whose address the library accepts, that is the only read and
    the only construction of the whole run: later changes of the environment
    and later increments consult neither, and every increment goes through the
    client built from that address.  In any run, the configuration events of a
    process that holds a client end with the read and the construction that
    produced it, every constructor call before it having raised, and from a
    state that holds a client no further step reads the setting.  (A call the
    constructor rejects caches nothing, so the next call reads the setting
    again; runs are of calls that do not overlap.) *)
Theorem url_resolved_at_construction {S : Type} `{!RedisLib S}
    (env : gmap string string) (srv : S) (first : action) (acts : list action) :
  (forall w : World S, cache w = None ->
     exists r w1,
       redis w = (r, w1)
       /\ trace w1 = (trace w ++ [EvGetenv "REDIS_URL";
                                  EvFromUrl (resolve_url (environ w)) r])%list
       /\ (forall c, r = Returned c -> client_url c = resolve_url (environ w))
       /\ (forall e, r = Raised e -> cache w1 = None))
  /\ (from_url_check (resolve_url env) = None ->
      (first = CallRedis
       \/ exists req, first = Serve req /\ req_method req = GET /\ req_path req = "/") ->
      config_events (trace (snd (run (first :: acts) (init_world env srv))))
      = [EvGetenv "REDIS_URL";
         EvFromUrl (resolve_url env)
           (Returned {| client_id := 0; client_url := resolve_url env |})]
      /\ Forall (fun c => client_url c = resolve_url env)
           (incr_clients (trace (snd (run (first :: acts) (init_world env srv))))))
  /\ (env !! "REDIS_URL" = None -> resolve_url env = "redis://localhost:6379")
  /\ (forall url, env !! "REDIS_URL" = Some url -> resolve_url env = url)
  /\ (forall c, cache (snd (run acts (init_world env srv))) = Some c ->
        exists failed,
          config_events (trace (snd (run acts (init_world env srv))))
          = (failed ++ [EvGetenv "REDIS_URL";
                        EvFromUrl (client_url c) (Returned c)])%list
          /\ constructed failed = [])
  /\ (forall (w : World S) (c : Client) (more : list action),
        consistent w -> cache w = Some c ->
        cache (snd (run more w)) = Some c
        /\ config_events (trace (snd (run more w))) = config_events (trace w)).
Proof.
  split; [|split; [|split; [|split; [|split]]]].
  - intros w Hc. pose proof (redis_effect w) as E. rewrite Hc in E.
    destruct E as (r & w1 & E & Ht & _ & Hk).
    exists r, w1. split; [exact E|]. split; [exact Ht|]. split.
    + intros c ->. now destruct Hk as [-> _].
    + intros e ->. exact Hk.
  - intros Hok Hfirst.
    set (c0 := {| client_id := 0; client_url := resolve_url env |}).
    pose proof (init_world_consistent env srv) as H0.
    assert (Hr : redis (init_world env srv)
                 = (Returned c0,
                    set_cache (Some c0)
                      (emit (EvFromUrl (resolve_url env) (Returned c0))
                         (set_next_id 1 (emit (EvGetenv "REDIS_URL")
                                           (init_world env srv)))))).
    { rewrite redis_fresh by reflexivity. simpl. now rewrite Hok. }
    assert (H1 : cache (snd (step first (init_world env srv))) = Some c0
                 /\ config_events (trace (snd (step first (init_world env srv))))
                    = [EvGetenv "REDIS_URL";
                       EvFromUrl (resolve_url env) (Returned c0)]).
    { destruct Hfirst as [->|(req & -> & Hm & Hp)].
      - simpl. rewrite Hr. now simpl.
      - simpl. rewrite (wsgi_app_get _ _ Hm Hp).
        unfold index, try_except_else, page_views_call, bind, incr, ret,
          logger_exception.
        rewrite Hr. simpl.
        destruct (execute_incr _ _ _) as [[v|e] s']; simpl; [now split|].
        destruct (isinstance e RedisError); simpl; now split. }
    destruct H1 as [Hc1 Ht1].
    pose proof (step_consistent first _ H0) as Hs.
    destruct (run_cached acts _ _ Hs Hc1) as (Hc & Ht & _).
    pose proof (run_consistent acts _ Hs) as [_ Hi].
    rewrite run_cons. cbn [snd]. split; [congruence|].
    eapply Forall_impl; [exact Hi|]. intros c E. rewrite Hc in E.
    now injection E as <-.
  - unfold resolve_url. now intros ->.
  - unfold resolve_url. now intros url ->.
  - apply run_resolved_last.
    + apply init_world_consistent.
    + apply init_world_resolved_last.
  - intros w c more Hw Hc. destruct (run_cached more _ _ Hw Hc) as (H1 & H2 & _).
    now split.
Qed.

Lemma url_resolved_at_construction_witness :
  config_events (trace (snd (run
    [Serve get_root; SetEnviron "REDIS_URL" "redis://elsewhere:6379"; Serve get_root;
     CallRedis]
    (init_world {[ "REDIS_URL" := "redis://custom:6379" ]} (Store.up ∅)))))
  = [EvGetenv "REDIS_URL";
     EvFromUrl "redis://custom:6379"
       (Returned {| client_id := 0; client_url := "redis://custom:6379" |})].
Proof.
  assert (Hok : from_url_check (resolve_url {[ "REDIS_URL" := "redis://custom:6379" ]})
                = None) by (vm_compute; reflexivity).
  assert (Hurl : resolve_url {[ "REDIS_URL" := "redis://custom:6379" ]}
                 = "redis://custom:6379") by (vm_compute; reflexivity).
  rewrite <- Hurl at 2 3.
  apply (proj1 (proj1 (proj2 (url_resolved_at_construction
    {[ "REDIS_URL" := "redis://custom:6379" ]} (Store.up ∅) (Serve get_root)
    [SetEnviron "REDIS_URL" "redis://elsewhere:6379"; Serve get_root; CallRedis]))
    Hok
    (or_intror (ex_intro _ get_root (conj eq_refl (conj eq_refl eq_refl)))))).
Defined.

(** C7 fails as stated: with an address the constructor rejects nothing is
    cached, and each of three requests reads [REDIS_URL] and calls the
    constructor again. *)
Lemma rejected_address_resolved_again :
  List.map (fun ev => match ev with
                      | EvGetenv key => key
                      | EvFromUrl url _ => url
                      | _ => ""
                      end)
    (config_events (trace (snd (run [Serve get_root; Serve get_root; Serve get_root]
                                  misconfigured_world))))
  = ["REDIS_URL"; "invalid://url"; "REDIS_URL"; "invalid://url";
     "REDIS_URL"; "invalid://url"]
  /\ cache (snd (run [Serve get_root; Serve get_root; Serve get_root]
                  misconfigured_world)) = None.
Proof. split; vm_compute; reflexivity. Qed.

(** ** Increments per request *)

Lemma redis_keeps_store {S : Type} `{!RedisLib S} (w w1 : World S) r :
  redis w = (r, w1) ->
  server w1 = server w /\ incr_keys (trace w1) = incr_keys (trace w).
Proof.
  intros Hr. pose proof (redis_effect w) as E.
  destruct (cache w) as [c|].
  - rewrite E in Hr. now injection Hr as <- <-.
  - destruct E as (r' & w1' & E & Ht & Hs & _). rewrite E in Hr.
    injection Hr as <- <-. split; [exact Hs|].
    rewrite Ht, incr_keys_app. simpl. apply app_nil_r.
Qed.

Lemma mock_redis_returns (w : World Mock.state) :
  exists c w1, redis w = (Returned c, w1).
Proof.
  pose proof (redis_effect w) as E. destruct (cache w) as [c|]; [eauto|].
  unfold redis, redis_uncached, bind, getenv, from_url in *.
  destruct (cache w); simpl; eauto.
Qed.

(** Serving [GET /] again and again against a stub scripted with integers:
    each response shows the integer scripted for it, and each request adds one
    increment of [page_views]. *)
Lemma mock_script_run (ns : list Z) (w : World Mock.state) :
  server w = Mock.scripted (List.map (fun n => Returned (PyInt n)) ns) ->
  fst (run (List.map (fun _ => Serve get_root) ns) w)
  = List.map (fun n => ObsResponse
                {| status := 200; body := success_body (str_of_int n) |}) ns
  /\ incr_keys (trace (snd (run (List.map (fun _ => Serve get_root) ns) w)))
     = (incr_keys (trace w) ++ List.map (fun _ => "page_views") ns)%list.
Proof.
  revert w. induction ns as [|n ns IH]; intros w Hs.
  - simpl. now rewrite app_nil_r.
  - cbn [List.map]. rewrite run_cons. cbn [fst snd step].
    destruct (mock_redis_returns w) as (c & w1 & Hr).
    destruct (redis_keeps_store _ _ _ Hr) as [Hs1 Hk1].
    assert (Hi : execute_incr c "page_views" (server w1)
                 = (Returned (PyInt n),
                    Mock.scripted (List.map (fun n => Returned (PyInt n)) ns))).
    { now rewrite Hs1, Hs. }
    rewrite (get_response_returned get_root _ _ _ _ _ eq_refl eq_refl Hr Hi).
    cbn [fst snd].
    destruct (IH (emit (EvIncr c "page_views")
                    (set_server
                       (Mock.scripted (List.map (fun n => Returned (PyInt n)) ns)) w1))
                eq_refl) as [IH1 IH2].
    rewrite IH1, IH2. split; [reflexivity|].
    cbn [trace emit set_server]. rewrite incr_keys_app, Hk1.
    now rewrite <- app_assoc.
Qed.

(** C5 (as amended): a [GET /] for which the accessor yields a client invokes
    the store's increment exactly once, on that client and with the key
    [page_views], whether the call then returns or raises; and when the store
    returns a scripted sequence of integers, 1, 2, 3, 4, 5 for instance, the
    responses show them one each in order, with one increment per request. *)
Theorem index_increments_once {S : Type} `{!RedisLib S}
    (req : Request) (w w1 : World S) (c : Client) :
  req_method req = GET -> req_path req = "/" ->
  redis w = (Returned c, w1) ->
  incr_keys (trace (snd (wsgi_app req w))) = (incr_keys (trace w) ++ ["page_views"])%list
  /\ incr_clients (trace (snd (wsgi_app req w))) = (incr_clients (trace w1) ++ [c])%list
  /\ (forall (env : gmap string string) (ns : list Z),
        fst (run (List.map (fun _ => Serve get_root) ns)
               (init_world env
                  (Mock.scripted (List.map (fun n => Returned (PyInt n)) ns))))
        = List.map (fun n => ObsResponse
                      {| status := 200; body := success_body (str_of_int n) |}) ns
        /\ incr_keys (trace (snd (run (List.map (fun _ => Serve get_root) ns)
               (init_world env
                  (Mock.scripted (List.map (fun n => Returned (PyInt n)) ns))))))
           = List.map (fun _ => "page_views") ns)
  /\ fst (run (List.map (fun _ => Serve get_root) [1; 2; 3; 4; 5])
            (init_world ∅
               (Mock.scripted (List.map (fun n => Returned (PyInt n)) [1; 2; 3; 4; 5]))))
     = [ObsResponse {| status := 200; body := success_body "1" |};
        ObsResponse {| status := 200; body := success_body "2" |};
        ObsResponse {| status := 200; body := success_body "3" |};
        ObsResponse {| status := 200; body := success_body "4" |};
        ObsResponse {| status := 200; body := success_body "5" |}].
Proof.
  intros Hm Hp Hr.
  destruct (redis_keeps_store _ _ _ Hr) as [_ Hk].
  assert (Ht : exists extra,
             trace (snd (wsgi_app req w))
             = (trace w1 ++ EvIncr c "page_views" :: extra)%list
             /\ incr_keys extra = [] /\ incr_clients extra = []).
  { destruct (execute_incr c "page_views" (server w1)) as [[v|e] s'] eqn:Hi.
    - rewrite (get_response_returned _ _ _ _ _ _ Hm Hp Hr Hi).
      exists []. now simpl.
    - destruct (isinstance e RedisError) eqn:I.
      + rewrite (get_response_redis_error _ _ _ _ _ _ Hm Hp Hr Hi I).
        exists [EvLog "Redis Error" e]. simpl. now rewrite <- app_assoc.
      + rewrite (get_response_other_error _ _ _ _ _ _ Hm Hp Hr Hi I).
        exists [EvLog "Exception on / [GET]" e]. simpl. now rewrite <- app_assoc. }
  destruct Ht as (extra & Ht & Hk' & Hc').
  split; [|split; [|split]].
  - rewrite Ht, incr_keys_app, Hk. simpl. now rewrite Hk'.
  - rewrite Ht, incr_clients_app. simpl. now rewrite Hc'.
  - intros env ns. apply (mock_script_run ns (init_world env _) eq_refl).
  - apply (mock_script_run [1; 2; 3; 4; 5] (init_world ∅ _) eq_refl).
Qed.

Lemma index_increments_once_witness :
  incr_keys (trace (snd (wsgi_app get_root (store_world ∅)))) = ["page_views"].
Proof.
  exact (proj1 (index_increments_once get_root (store_world ∅)
    (snd (redis (store_world ∅))) default_client eq_refl eq_refl eq_refl)).
Defined.

(** C5 fails as stated: when the configured address is one the client library
    rejects, the accessor raises inside the view and the request ends without
    any increment. *)
Lemma misconfigured_request_never_increments :
  fst (redis misconfigured_world)
  = Raised (Exn ValueError
      "Redis URL must specify one of the following schemes (redis://, rediss://, unix://)")
  /\ status (fst (wsgi_app get_root misconfigured_world)) = 500
  /\ incr_keys (trace (snd (wsgi_app get_root misconfigured_world))) = [].
Proof. repeat split; vm_compute; reflexivity. Qed.

(** ** End-to-end scenarios against the store *)

Lemma store_get_adds_one (w w1 : World Store.state) (c : Client)
    (ks : gmap string Z) (req : Request) :
  req_method req = GET -> req_path req = "/" ->
  redis w = (Returned c, w1) -> server w = Store.up ks ->
  fst (wsgi_app req w)
  = {| status := 200;
       body := success_body (str_of_int (default 0 (ks !! "page_views") + 1)) |}
  /\ Store.keyspace (server (snd (wsgi_app req w))) !! "page_views"
     = Some (default 0 (ks !! "page_views") + 1).
Proof.
  intros Hm Hp Hr Hs.
  destruct (redis_keeps_store _ _ _ Hr) as [Hs1 _].
  assert (Hi : execute_incr c "page_views" (server w1)
               = (Returned (PyInt (default 0 (ks !! "page_views") + 1)),
                  Store.up (<["page_views" := default 0 (ks !! "page_views") + 1]> ks))).
  { now rewrite Hs1, Hs. }
  rewrite (get_response_returned _ _ _ _ _ _ Hm Hp Hr Hi).
  split; [reflexivity|]. cbn [fst snd server emit set_server Store.keyspace Store.up].
  apply lookup_insert_eq.
Qed.

(** C9: with a store whose increment treats an absent key as 0 and adds
    exactly 1, the first [GET /] of a fresh process is answered 200 with a body
    containing 1 and leaves 1 in the store, the second is answered with a body
    containing 2 and leaves 2, and with the counter preset to 999999 the body
    contains 1000000. *)
Theorem counter_scenarios :
  fst (run [Serve get_root; Serve get_root] (store_world ∅))
  = [ObsResponse {| status := 200; body := success_body "1" |};
     ObsResponse {| status := 200; body := success_body "2" |}]
  /\ contains "1" (success_body "1") = true
  /\ contains "2" (success_body "2") = true
  /\ Store.keyspace (server (snd (run [Serve get_root] (store_world ∅))))
       !! "page_views" = Some 1
  /\ Store.keyspace (server (snd (run [Serve get_root; Serve get_root] (store_world ∅))))
       !! "page_views" = Some 2
  /\ fst (wsgi_app get_root (store_world {[ "page_views" := 999999 ]}))
     = {| status := 200; body := success_body "1000000" |}
  /\ contains "1000000"
       (body (fst (wsgi_app get_root (store_world {[ "page_views" := 999999 ]}))))
     = true
  /\ Store.keyspace
       (server (snd (wsgi_app get_root (store_world {[ "page_views" := 999999 ]}))))
       !! "page_views" = Some 1000000.
Proof. repeat split; vm_compute; reflexivity. Qed.

(** * Further properties of the application *)

(** ** The view under [GET] and [HEAD] *)

Lemma wsgi_app_view {S : Type} `{!RedisLib S} (req : Request) (w : World S) :
  req_path req = "/" -> req_method req = GET \/ req_method req = HEAD ->
  wsgi_app req w =
  match index w with
  | (Returned rv, w') => (finalize req (make_response rv), w')
  | (Raised e, w') =>
      (finalize req internal_server_error,
       emit (EvLog ("Exception on / [" +:+ method_name (req_method req) +:+ "]") e) w')
  end.
Proof.
  intros Hp Hm. unfold wsgi_app, dispatch_request, bind, ret. rewrite Hp.
  destruct Hm as [-> | ->]; simpl; now destruct (index w) as [[rv|e] w'].
Qed.

Lemma finalize_status (req : Request) (r : Response) :
  status (finalize req r) = status r.
Proof. unfold finalize. now destruct (bool_decide _). Qed.

Lemma log_records_app (t1 t2 : list event) :
  log_records (t1 ++ t2) = (log_records t1 ++ log_records t2)%list.
Proof. apply omap_app. Qed.

Lemma redis_keeps_log {S : Type} `{!RedisLib S} (w w1 : World S) r :
  redis w = (r, w1) -> log_records (trace w1) = log_records (trace w).
Proof.
  intros Hr. pose proof (redis_effect w) as E.
  destruct (cache w) as [c|].
  - rewrite E in Hr. now injection Hr as <- <-.
  - destruct E as (r' & w1' & E & Ht & _). rewrite E in Hr.
    injection Hr as <- <-. rewrite Ht, log_records_app. simpl. apply app_nil_r.
Qed.

Lemma page_views_call_keeps_log {S : Type} `{!RedisLib S} (w : World S) :
  log_records (trace (snd (page_views_call w))) = log_records (trace w).
Proof.
  unfold page_views_call, bind, incr.
  destruct (redis w) as [[c|e] w1] eqn:Hr; simpl.
  - destruct (execute_incr c "page_views" (server w1)) as [r s']. simpl.
    rewrite log_records_app. simpl. rewrite app_nil_r.
    now apply (redis_keeps_log _ _ _ Hr).
  - now apply (redis_keeps_log _ _ _ Hr).
Qed.

(** X1: an exception raised while the client is being obtained is handled
    like one raised by the increment itself, because the accessor is called
    inside the [try] suite: a [RedisError] is answered with the apology and
    status 500, anything else leaves the view; in both cases no increment is
    attempted and the store is left alone. *)
Theorem accessor_failure_response {S : Type} `{!RedisLib S}
    (req : Request) (w w1 : World S) (e : exn) :
  req_method req = GET -> req_path req = "/" ->
  redis w = (Raised e, w1) ->
  incr_keys (trace (snd (wsgi_app req w))) = incr_keys (trace w)
  /\ server (snd (wsgi_app req w)) = server w
  /\ (isinstance e RedisError = true ->
      wsgi_app req w
      = ({| status := 500; body := apology |}, emit (EvLog "Redis Error" e) w1))
  /\ (isinstance e RedisError = false ->
      wsgi_app req w
      = (internal_server_error, emit (EvLog "Exception on / [GET]" e) w1)).
Proof.
  intros Hm Hp Hr.
  destruct (redis_keeps_store _ _ _ Hr) as [Hs Hk].
  assert (E : page_views_call w = (Raised e, w1)).
  { unfold page_views_call, bind. now rewrite Hr. }
  rewrite (wsgi_app_get _ _ Hm Hp).
  destruct (isinstance e RedisError) eqn:I.
  - rewrite (index_except _ _ _ E I). cbn [fst snd trace server emit].
    rewrite incr_keys_app, Hk. simpl. rewrite app_nil_r.
    repeat split; [exact Hs | discriminate].
  - rewrite (index_propagates _ _ _ E I). cbn [fst snd trace server emit].
    rewrite incr_keys_app, Hk. simpl. rewrite app_nil_r.
    repeat split; [exact Hs | discriminate].
Qed.

Lemma accessor_failure_response_witness :
  wsgi_app get_root (init_world ∅ NoClient.Nowhere)
  = ({| status := 500; body := apology |},
     emit (EvLog "Redis Error" (Exn ConnectionError "Connection failed"))
       (snd (redis (init_world ∅ NoClient.Nowhere)))).
Proof.
  exact (proj1 (proj2 (proj2 (accessor_failure_response get_root
    (init_world ∅ NoClient.Nowhere) (snd (redis (init_world ∅ NoClient.Nowhere)))
    (Exn ConnectionError "Connection failed") eq_refl eq_refl eq_refl))) eq_refl).
Defined.

(** X2: a failed construction is not remembered.  When the constructor rejects
    the configured address the accessor raises and the cache stays empty, so
    the next call starts over: once the environment names an address the
    library accepts, that call builds the client from it. *)
Theorem failed_construction_not_cached {S : Type} `{!RedisLib S}
    (w : World S) (e : exn) :
  cache w = None -> from_url_check (resolve_url (environ w)) = Some e ->
  fst (redis w) = Raised e
  /\ cache (snd (redis w)) = None
  /\ (forall url, from_url_check url = None ->
        fst (redis (set_environ (<["REDIS_URL" := url]> (environ w)) (snd (redis w))))
        = Returned {| client_id := next_id w; client_url := url |}
        /\ cache (snd (redis (set_environ (<["REDIS_URL" := url]> (environ w))
                                (snd (redis w)))))
           = Some {| client_id := next_id w; client_url := url |}).
Proof.
  intros Hc He. rewrite (redis_fresh _ Hc), He. cbn [fst snd].
  split; [reflexivity|]. split; [exact Hc|].
  intros url Hu. rewrite redis_fresh by exact Hc.
  cbn [environ set_environ emit]. unfold resolve_url.
  rewrite lookup_insert_eq. cbn [default from_option id]. rewrite Hu. now split.
Qed.

Lemma failed_construction_not_cached_witness :
  fst (redis misconfigured_world)
  = Raised (Exn ValueError
      "Redis URL must specify one of the following schemes (redis://, rediss://, unix://)")
  /\ fst (redis (set_environ (<["REDIS_URL" := "redis://cache:6379"]>
                               (environ misconfigured_world))
                   (snd (redis misconfigured_world))))
     = Returned {| client_id := 0; client_url := "redis://cache:6379" |}.
Proof.
  assert (He : from_url_check (resolve_url (environ misconfigured_world))
               = Some (Exn ValueError
      "Redis URL must specify one of the following schemes (redis://, rediss://, unix://)"))
    by (vm_compute; reflexivity).
  destruct (failed_construction_not_cached misconfigured_world _ eq_refl He)
    as (H1 & _ & H3).
  split; [exact H1|]. apply (H3 "redis://cache:6379"). reflexivity.
Defined.

(** X3: a [GET] or [HEAD] request to the root path is answered 200 exactly
    when the [try] suite of the view returned a value and 500 exactly when it
    raised; no other status is possible, whatever the store does. *)
Theorem root_status_200_or_500 {S : Type} `{!RedisLib S}
    (req : Request) (w : World S) :
  req_path req = "/" -> req_method req = GET \/ req_method req = HEAD ->
  (status (fst (wsgi_app req w)) = 200
   /\ exists v, fst (page_views_call w) = Returned v)
  \/ (status (fst (wsgi_app req w)) = 500
      /\ exists e, fst (page_views_call w) = Raised e).
Proof.
  intros Hp Hm. rewrite (wsgi_app_view _ _ Hp Hm).
  destruct (page_views_call w) as [[v|e] w'] eqn:E; cbn [fst].
  - left. rewrite (index_else _ _ _ E). cbn [fst].
    rewrite finalize_status. eauto.
  - right. destruct (isinstance e RedisError) eqn:I.
    + rewrite (index_except _ _ _ E I). cbn [fst]. rewrite finalize_status. eauto.
    + rewrite (index_propagates _ _ _ E I). cbn [fst]. rewrite finalize_status. eauto.
Qed.

Lemma root_status_200_or_500_witness :
  (status (fst (wsgi_app (request_root HEAD) (init_world ∅ (Store.down ∅)))) = 200
   /\ exists v, fst (page_views_call (init_world ∅ (Store.down ∅))) = Returned v)
  \/ (status (fst (wsgi_app (request_root HEAD) (init_world ∅ (Store.down ∅)))) = 500
      /\ exists e, fst (page_views_call (init_world ∅ (Store.down ∅))) = Raised e).
Proof.
  exact (root_status_200_or_500 (request_root HEAD) (init_world ∅ (Store.down ∅))
           eq_refl (or_intror eq_refl)).
Defined.

(** X4: the view writes to the log only when the [try] suite raises: a
    successful request adds no record, a [RedisError] adds the one record
    "Redis Error" carrying the exception, and an exception the view does not
    catch adds the framework's record for the request.  Neither the accessor
    nor the increment logs anything. *)
Theorem view_logs_only_failures {S : Type} `{!RedisLib S}
    (req : Request) (w : World S) :
  req_method req = GET -> req_path req = "/" ->
  log_records (trace (snd (wsgi_app req w)))
  = (log_records (trace w)
     ++ match fst (page_views_call w) with
        | Returned _ => []
        | Raised e =>
            [(if isinstance e RedisError then "Redis Error"
              else "Exception on / [GET]", e)]
        end)%list.
Proof.
  intros Hm Hp. rewrite (wsgi_app_get _ _ Hm Hp).
  pose proof (page_views_call_keeps_log w) as Hl.
  destruct (page_views_call w) as [[v|e] w'] eqn:E; cbn [fst snd] in *.
  - rewrite (index_else _ _ _ E). cbn [snd]. now rewrite app_nil_r.
  - destruct (isinstance e RedisError) eqn:I.
    + rewrite (index_except _ _ _ E I). cbn [snd trace emit].
      now rewrite log_records_app, Hl.
    + rewrite (index_propagates _ _ _ E I). cbn [snd trace emit].
      now rewrite log_records_app, Hl.
Qed.

Lemma view_logs_only_failures_witness :
  log_records (trace (snd (wsgi_app get_root (init_world ∅ (Store.down ∅)))))
  = [("Redis Error", Exn ConnectionError "Connection refused.")].
Proof.
  exact (view_logs_only_failures get_root (init_world ∅ (Store.down ∅))
           eq_refl eq_refl).
Defined.

(** ** The accessor and the environment *)

Lemma redis_returned_cached {S : Type} `{!RedisLib S} (w w1 : World S) (c : Client) :
  redis w = (Returned c, w1) -> cache w1 = Some c.
Proof.
  intros Hr. pose proof (redis_effect w) as E.
  destruct (cache w) as [c'|] eqn:Ec.
  - rewrite E in Hr. now injection Hr as <- <-.
  - destruct E as (r & w1' & E & _ & _ & Hk). rewrite E in Hr.
    injection Hr as -> <-. apply Hk.
Qed.

(** X5: calling the accessor again after it has returned changes nothing and
    returns the same client: the second call is answered from the cache, in
    any state of the process. *)
Theorem redis_second_call_is_cached {S : Type} `{!RedisLib S}
    (w w1 : World S) (c : Client) :
  redis w = (Returned c, w1) ->
  cache w1 = Some c /\ redis w1 = (Returned c, w1).
Proof.
  intros Hr. pose proof (redis_returned_cached _ _ _ Hr) as Hc.
  split; [exact Hc | now apply redis_cached].
Qed.

Lemma redis_second_call_is_cached_witness :
  redis (snd (redis (store_world ∅))) = (Returned default_client, snd (redis (store_world ∅))).
Proof.
  exact (proj2 (redis_second_call_is_cached (store_world ∅)
                  (snd (redis (store_world ∅))) default_client eq_refl)).
Defined.

Lemma wsgi_app_set_environ {S : Type} `{!RedisLib S}
    (req : Request) (w : World S) (c : Client) (env' : gmap string string) :
  cache w = Some c ->
  wsgi_app req (set_environ env' w)
  = (fst (wsgi_app req w), set_environ env' (snd (wsgi_app req w))).
Proof.
  intros Hc. unfold wsgi_app, dispatch_request.
  destruct (negb (String.eqb (req_path req) "/")); [reflexivity|].
  destruct (negb (bool_decide (req_method req ∈ rule_methods))); [reflexivity|].
  destruct (provide_automatic_options && bool_decide (req_method req = OPTIONS));
    [reflexivity|].
  unfold bind, index, try_except_else, page_views_call, bind, incr, ret,
    logger_exception.
  rewrite (redis_cached w c Hc), (redis_cached (set_environ env' w) c Hc).
  cbn [server set_environ].
  destruct (execute_incr c "page_views" (server w)) as [[v|e] s']; [reflexivity|].
  cbn [snd fst]. destruct (isinstance e RedisError); reflexivity.
Qed.

(** X6: once the client is cached the environment no longer matters to any
    request: with any other environment in place the response, the store and
    the trace come out the same, and the request leaves the environment as it
    found it. *)
Theorem environment_ignored_once_cached {S : Type} `{!RedisLib S}
    (req : Request) (w : World S) (c : Client) (env' : gmap string string) :
  cache w = Some c ->
  fst (wsgi_app req (set_environ env' w)) = fst (wsgi_app req w)
  /\ server (snd (wsgi_app req (set_environ env' w))) = server (snd (wsgi_app req w))
  /\ trace (snd (wsgi_app req (set_environ env' w))) = trace (snd (wsgi_app req w))
  /\ environ (snd (wsgi_app req (set_environ env' w))) = env'.
Proof.
  intros Hc. rewrite (wsgi_app_set_environ _ _ _ _ Hc). now repeat split.
Qed.

Lemma environment_ignored_once_cached_witness :
  fst (wsgi_app get_root
         (set_environ {[ "REDIS_URL" := "invalid://url" ]}
            (snd (redis (store_world ∅)))))
  = fst (wsgi_app get_root (snd (redis (store_world ∅)))).
Proof.
  exact (proj1 (environment_ignored_once_cached get_root
    (snd (redis (store_world ∅))) default_client
    {[ "REDIS_URL" := "invalid://url" ]} eq_refl)).
Defined.

(** ** [HEAD] *)

(** X7: a [HEAD] request to the root path runs the view exactly as a [GET]
    does: the status is the same, the store, the cache and the increments
    recorded are the same; only the body is withheld. *)
Theorem head_mirrors_get {S : Type} `{!RedisLib S}
    (rh rg : Request) (w : World S) :
  req_path rh = "/" -> req_method rh = HEAD ->
  req_path rg = "/" -> req_method rg = GET ->
  status (fst (wsgi_app rh w)) = status (fst (wsgi_app rg w))
  /\ body (fst (wsgi_app rh w)) = ""
  /\ server (snd (wsgi_app rh w)) = server (snd (wsgi_app rg w))
  /\ cache (snd (wsgi_app rh w)) = cache (snd (wsgi_app rg w))
  /\ incr_keys (trace (snd (wsgi_app rh w))) = incr_keys (trace (snd (wsgi_app rg w))).
Proof.
  intros Hph Hmh Hpg Hmg.
  rewrite (wsgi_app_view rh w Hph (or_intror Hmh)).
  rewrite (wsgi_app_view rg w Hpg (or_introl Hmg)).
  unfold finalize. rewrite Hmh, Hmg.
  destruct (index w) as [[rv|e] w']; cbn [fst snd status body].
  - now repeat split.
  - cbn [server cache trace emit]. rewrite !incr_keys_app. now repeat split.
Qed.

Lemma head_mirrors_get_witness :
  server (snd (wsgi_app (request_root HEAD) (store_world ∅)))
  = server (snd (wsgi_app get_root (store_world ∅))).
Proof.
  exact (proj1 (proj2 (proj2 (head_mirrors_get (request_root HEAD) get_root
    (store_world ∅) eq_refl eq_refl eq_refl eq_refl)))).
Defined.

(** ** Counting against the store *)

Lemma store_incr_eq (c : Client) (w : World Store.state) (ks : gmap string Z) :
  server w = Store.up ks ->
  execute_incr c "page_views" (server w)
  = (Returned (PyInt (default 0 (ks !! "page_views") + 1)),
     Store.up (<["page_views" := default 0 (ks !! "page_views") + 1]> ks)).
Proof. now intros ->. Qed.

Lemma store_run_counts (reqs : list Request) :
  forall (w w1 : World Store.state) (c : Client) (ks : gmap string Z),
    Forall (fun r => req_method r = GET /\ req_path r = "/") reqs ->
    redis w = (Returned c, w1) -> server w = Store.up ks ->
    fst (run (List.map Serve reqs) w)
    = List.map (fun i => ObsResponse
                  {| status := 200;
                     body := success_body
                               (str_of_int (default 0 (ks !! "page_views")
                                            + Z.of_nat i)) |})
        (seq 1 (length reqs))
    /\ server (snd (run (List.map Serve reqs) w))
       = Store.up match reqs with
                  | [] => ks
                  | _ => <["page_views" := default 0 (ks !! "page_views")
                                            + Z.of_nat (length reqs)]> ks
                  end.
Proof.
  induction reqs as [|req reqs IH]; intros w w1 c ks Hall Hr Hs.
  - now split.
  - apply Forall_cons in Hall as [[Hm Hp] Hall].
    cbn [List.map length]. rewrite run_cons. cbn [fst snd step].
    destruct (redis_keeps_store _ _ _ Hr) as [Hs1 _].
    pose proof (store_incr_eq c w1 ks (eq_trans Hs1 Hs)) as Hi.
    rewrite (get_response_returned _ _ _ _ _ _ Hm Hp Hr Hi). cbn [fst snd].
    set (v := default 0 (ks !! "page_views")) in *.
    set (w' := emit (EvIncr c "page_views")
                 (set_server (Store.up (<["page_views" := v + 1]> ks)) w1)).
    assert (Hr' : redis w' = (Returned c, w')).
    { apply redis_cached. apply (redis_returned_cached _ _ _ Hr). }
    destruct (IH w' w' c (<["page_views" := v + 1]> ks) Hall Hr' eq_refl)
      as [IH1 IH2].
    rewrite lookup_insert_eq in IH1, IH2. cbn [default from_option id] in IH1, IH2.
    split.
    + rewrite IH1. cbn [seq List.map format_value].
      replace (v + Z.of_nat 1) with (v + 1) by lia. f_equal.
      rewrite <- (seq_shift (length reqs) 1), List.map_map.
      apply List.map_ext. intros i.
      now replace (v + 1 + Z.of_nat i) with (v + Z.of_nat (Datatypes.S i)) by lia.
    + rewrite IH2. f_equal. destruct reqs as [|req' reqs]; [reflexivity|].
      rewrite insert_insert_eq.
      replace (v + 1 + Z.of_nat (length (req' :: reqs)))
        with (v + Z.of_nat (length (req :: req' :: reqs))); [reflexivity|].
      cbn [length]. lia.
Qed.

(** X8: against a reachable store, a series of [GET /] requests counts: the
    i-th response shows the value the counter had before the series plus i (an
    absent counter counting as 0), and after the series the store holds that
    value plus the number of requests under [page_views], every other key
    being as before. *)
Theorem store_counts_requests
    (reqs : list Request) (w w1 : World Store.state) (c : Client)
    (ks : gmap string Z) :
  Forall (fun r => req_method r = GET /\ req_path r = "/") reqs ->
  redis w = (Returned c, w1) -> server w = Store.up ks ->
  fst (run (List.map Serve reqs) w)
  = List.map (fun i => ObsResponse
                {| status := 200;
                   body := success_body
                             (str_of_int (default 0 (ks !! "page_views")
                                          + Z.of_nat i)) |})
      (seq 1 (length reqs))
  /\ (reqs <> [] ->
      Store.keyspace (server (snd (run (List.map Serve reqs) w))) !! "page_views"
      = Some (default 0 (ks !! "page_views") + Z.of_nat (length reqs)))
  /\ (forall key, key <> "page_views" ->
        Store.keyspace (server (snd (run (List.map Serve reqs) w))) !! key
        = ks !! key).
Proof.
  intros Hall Hr Hs.
  destruct (store_run_counts reqs w w1 c ks Hall Hr Hs) as [H1 H2].
  split; [exact H1|]. rewrite H2. split.
  - intros Hne. destruct reqs; [contradiction|]. apply lookup_insert_eq.
  - intros key Hk. destruct reqs; [reflexivity|].
    cbn [Store.keyspace Store.up]. now apply lookup_insert_ne.
Qed.

Lemma store_counts_requests_witness :
  fst (run (List.map Serve [get_root; get_root_decorated; get_root])
         (store_world {[ "page_views" := 4 ]}))
  = List.map (fun i => ObsResponse
                {| status := 200;
                   body := success_body (str_of_int (4 + Z.of_nat i)) |})
      [1%nat; 2%nat; 3%nat].
Proof.
  refine (proj1 (store_counts_requests [get_root; get_root_decorated; get_root]
    (store_world {[ "page_views" := 4 ]})
    (snd (redis (store_world {[ "page_views" := 4 ]}))) default_client
    {[ "page_views" := 4 ]} _ eq_refl eq_refl)).
  repeat constructor.
Defined.

(** X9: while the store is unreachable a [GET /] is answered with the apology
    and status 500 and the keyspace is left as it was; the application keeps no
    count of its own, so when the store is reachable again the next request
    shows the stored value plus 1. *)
Theorem store_outage_keeps_counter
    (req : Request) (w w1 : World Store.state) (c : Client) (ks : gmap string Z) :
  req_method req = GET -> req_path req = "/" ->
  redis w = (Returned c, w1) -> server w = Store.down ks ->
  fst (wsgi_app req w) = {| status := 500; body := apology |}
  /\ server (snd (wsgi_app req w)) = Store.down ks
  /\ fst (wsgi_app req (set_server (Store.up ks) (snd (wsgi_app req w))))
     = {| status := 200;
          body := success_body (str_of_int (default 0 (ks !! "page_views") + 1)) |}.
Proof.
  intros Hm Hp Hr Hs.
  destruct (redis_keeps_store _ _ _ Hr) as [Hs1 _].
  assert (Hi : execute_incr c "page_views" (server w1)
               = (Raised (Exn ConnectionError "Connection refused."), Store.down ks)).
  { now rewrite Hs1, Hs. }
  rewrite (get_response_redis_error _ _ _ _ _ _ Hm Hp Hr Hi eq_refl).
  cbn [fst snd]. split; [reflexivity|]. split; [reflexivity|].
  set (w2 := set_server (Store.up ks) _).
  assert (Hr2 : redis w2 = (Returned c, w2)).
  { apply redis_cached. subst w2. cbn [cache set_server emit].
    apply (redis_returned_cached _ _ _ Hr). }
  exact (proj1 (store_get_adds_one w2 w2 c ks req Hm Hp Hr2 eq_refl)).
Qed.

Lemma store_outage_keeps_counter_witness :
  fst (wsgi_app get_root (init_world ∅ (Store.down {[ "page_views" := 7 ]})))
  = {| status := 500; body := apology |}.
Proof.
  exact (proj1 (store_outage_keeps_counter get_root
    (init_world ∅ (Store.down {[ "page_views" := 7 ]}))
    (snd (redis (init_world ∅ (Store.down {[ "page_views" := 7 ]}))))
    default_client {[ "page_views" := 7 ]} eq_refl eq_refl eq_refl eq_refl)).
Defined.

(** ** The first version of the application *)

Section LegacyFacts.
Context {S : Type} `{!RedisLib S}.
Implicit Types (w : World S) (c : Client).

Lemma legacy_redis_effect w :
  exists c w1,
    Legacy.redis w = (Returned c, w1)
    /\ trace w1 = trace w /\ environ w1 = environ w /\ server w1 = server w
    /\ cache w1 = Some c
    /\ (cache w = None ->
        c = {| client_id := next_id w; client_url := "redis://localhost:6379" |}).
Proof.
  unfold Legacy.redis, Legacy.Redis. destruct (cache w) as [c|] eqn:E.
  - exists c, w. now repeat split.
  - eexists _, _. now repeat split.
Qed.

Lemma legacy_redis_set_environ w (env' : gmap string string) :
  Legacy.redis (set_environ env' w)
  = (fst (Legacy.redis w), set_environ env' (snd (Legacy.redis w))).
Proof. unfold Legacy.redis, Legacy.Redis. simpl. now destruct (cache w). Qed.

Lemma legacy_index_eq w c w1 r s' :
  Legacy.redis w = (Returned c, w1) ->
  execute_incr c "page_views" (server w1) = (r, s') ->
  Legacy.index w =
  match r with
  | Returned v =>
      (Returned (RvStr ("This page has been viewed " +:+ format_value v +:+ " times")),
       emit (EvIncr c "page_views") (set_server s' w1))
  | Raised e =>
      if isinstance e RedisError then
        (Returned (RvTuple apology 500),
         emit (EvLog "Redis Error" e)
           (emit (EvIncr c "page_views") (set_server s' w1)))
      else (Raised e, emit (EvIncr c "page_views") (set_server s' w1))
  end.
Proof.
  intros Hr Hi. unfold Legacy.index, try_except_else, bind, incr, ret,
    logger_exception.
  rewrite Hr, Hi. destruct r as [v|e]; [reflexivity|].
  now destruct (isinstance e RedisError).
Qed.

End LegacyFacts.

(** X10: in the first version of the application the accessor cannot fail and
    never looks at the environment, so every run of the view sends exactly one
    increment of [page_views], reads no environment variable and gives the
    same result whatever the environment holds; the client of a fresh process
    is the one for the default local address. *)
Theorem legacy_index_always_increments {S : Type} `{!RedisLib S}
    (w : World S) (env' : gmap string string) :
  incr_keys (trace (snd (Legacy.index w))) = (incr_keys (trace w) ++ ["page_views"])%list
  /\ config_events (trace (snd (Legacy.index w))) = config_events (trace w)
  /\ environ (snd (Legacy.index w)) = environ w
  /\ fst (Legacy.index (set_environ env' w)) = fst (Legacy.index w)
  /\ (cache w = None ->
      cache (snd (Legacy.index w))
      = Some {| client_id := next_id w; client_url := "redis://localhost:6379" |}).
Proof.
  destruct (legacy_redis_effect w) as (c & w1 & Hr & Ht & He & Hs & Hc & Hn).
  assert (Hr' : Legacy.redis (set_environ env' w) = (Returned c, set_environ env' w1)).
  { rewrite legacy_redis_set_environ. now rewrite Hr. }
  destruct (execute_incr c "page_views" (server w1)) as [r s'] eqn:Hi.
  rewrite (legacy_index_eq _ _ _ _ _ Hr Hi).
  rewrite (legacy_index_eq _ _ _ _ _ Hr' Hi).
  destruct r as [v|e]; [|destruct (isinstance e RedisError)];
    cbn [fst snd trace environ cache emit set_server];
    rewrite ?incr_keys_app, ?config_events_app, Ht; simpl;
    rewrite ?app_nil_r, <- ?app_assoc; simpl;
    (repeat split; try assumption);
    intros Hw; now rewrite Hc, (Hn Hw).
Qed.

Lemma legacy_index_always_increments_witness :
  cache (snd (Legacy.index (init_world ∅ (Store.down ∅)))) = Some default_client.
Proof.
  exact (proj2 (proj2 (proj2 (proj2 (legacy_index_always_increments
    (init_world ∅ (Store.down ∅)) ∅)))) eq_refl).
Defined.

(** X11: the first version answers like the current one, with a plainer text:
    an integer (or any value) returned by the increment gives the sentence
    "This page has been viewed n times" with status 200, a [RedisError] gives
    the same apology with status 500, any other exception leaves the view;
    the current success text is that sentence between the party popper and
    the thanks. *)
Theorem legacy_index_result {S : Type} `{!RedisLib S}
    (w w1 : World S) (c : Client) (r : outcome pyval) (s' : S) :
  Legacy.redis w = (Returned c, w1) ->
  execute_incr c "page_views" (server w1) = (r, s') ->
  (forall v, r = Returned v ->
     make_response_of (fst (Legacy.index w))
     = Some {| status := 200;
               body := "This page has been viewed " +:+ format_value v +:+ " times" |}
     /\ success_body (format_value v)
        = utf8 PARTY_POPPER +:+ " "
          +:+ ("This page has been viewed " +:+ format_value v +:+ " times")
          +:+ "! Thanks for visiting!")
  /\ (forall e, r = Raised e -> isinstance e RedisError = true ->
        make_response_of (fst (Legacy.index w))
        = Some {| status := 500; body := apology |})
  /\ (forall e, r = Raised e -> isinstance e RedisError = false ->
        fst (Legacy.index w) = Raised e).
Proof.
  intros Hr Hi. rewrite (legacy_index_eq _ _ _ _ _ Hr Hi).
  split; [|split].
  - intros v ->. split; [reflexivity|].
    unfold success_body. rewrite !append_assoc. reflexivity.
  - intros e -> I. now rewrite I.
  - intros e -> I. now rewrite I.
Qed.

Lemma legacy_index_result_witness :
  make_response_of (fst (Legacy.index (store_world {[ "page_views" := 4 ]})))
  = Some {| status := 200; body := "This page has been viewed 5 times" |}.
Proof.
  exact (proj1 (proj1 (legacy_index_result (store_world {[ "page_views" := 4 ]})
    (snd (Legacy.redis (store_world {[ "page_views" := 4 ]}))) default_client
    (Returned (PyInt 5)) (Store.up (<[ "page_views" := 5 ]> {[ "page_views" := 4 ]}))
    eq_refl eq_refl) (PyInt 5) eq_refl)).
Defined.
